(** * imu_x_fusion: the GNSS callback of the IMU/GNSS fusion node

    A shallow embedding of [src/imu_gnss_fusion_node.cpp]
    ([FusionNode::gps_callback] and [FusionNode::publish_save_state]) and
    the properties of the error-state Kalman filter update it performs.

    Numbers.  The node computes on IEEE doubles.  They are embedded as exact
    rationals ([Q]): the matrix arithmetic is the one the code writes down,
    evaluated without rounding.  The one place where a computed number decides
    the control flow, the timestamp test of line 94, is embedded with the
    rounding of the double subtraction ([double_minus]).  Equality of computed
    numbers is [Qeq] ([==]); data that is only copied is compared with Leibniz
    equality.

    Collaborators.  The node includes [imu_x_fusion/kf.hpp] and
    [imu_x_fusion/gnss.hpp]; neither header is part of the sources.  What the
    node calls from them is gathered in the interface [Collaborators], so
    that the node is verified for every implementation of it.  The
    implementation the specification describes for the Kalman gain and the
    state correction is [update_K_spec] and [State_plus_spec]; what it says of
    the initialized flag is [initialization_contract]. *)

From Stdlib Require Import QArith Qabs Qround Qpower ZArith List Bool Arith Lia Lra Psatz String.
From Stdlib Require Import Setoid Morphisms.
Import ListNotations.
Open Scope Q_scope.

(* ================================================================= *)
(** ** Dense matrices, as the node uses Eigen *)

Module Eigen.

(** A fixed-size Eigen vector or matrix is its coefficient function; the
    dimensions are those of the C++ type and are passed where an operation
    needs them. *)
Definition Vector := nat -> Q.
Definition Matrix := nat -> nat -> Q.

(** [Eigen::Vector3d(x, y, z)] *)
Definition Vector3d (x y z : Q) : Vector :=
  fun i => match i with O => x | 1%nat => y | 2%nat => z | _ => 0 end.

(** [sum_upto n f] is [f 0 + ... + f (n-1)], the inner loop of a product. *)
Fixpoint sum_upto (n : nat) (f : nat -> Q) : Q :=
  match n with
  | O => 0
  | S k => sum_upto k f + f k
  end.

(** [setZero()], [Zero()] *)
Definition Zero : Matrix := fun _ _ => 0.

(** [Identity()] *)
Definition Identity : Matrix :=
  fun i j => if (i =? j)%nat then 1 else 0.

Definition vadd (u v : Vector) : Vector := fun i => u i + v i.
Definition vsub (u v : Vector) : Vector := fun i => u i - v i.

Definition madd (A B : Matrix) : Matrix := fun i j => A i j + B i j.
Definition msub (A B : Matrix) : Matrix := fun i j => A i j - B i j.
(** unary minus *)
Definition mneg (A : Matrix) : Matrix := fun i j => - A i j.
Definition transpose (A : Matrix) : Matrix := fun i j => A j i.

(** [A * B] where [A] has [n] columns *)
Definition mmul (n : nat) (A B : Matrix) : Matrix :=
  fun i j => sum_upto n (fun k => A i k * B k j).

(** [A * v] where [A] has [n] columns *)
Definition mulv (n : nat) (A : Matrix) (v : Vector) : Vector :=
  fun i => sum_upto n (fun k => A i k * v k).

(** [M.block<h, w>(i0, j0)] read *)
Definition block (i0 j0 : nat) (M : Matrix) : Matrix :=
  fun i j => M (i0 + i)%nat (j0 + j)%nat.

(** [v.block<h, 1>(i0, 0)] read *)
Definition segment (i0 : nat) (v : Vector) : Vector :=
  fun i => v (i0 + i)%nat.

Definition in_block (i0 j0 h w i j : nat) : bool :=
  (i0 <=? i)%nat && (i <? i0 + h)%nat && (j0 <=? j)%nat && (j <? j0 + w)%nat.

(** [M.block<h, w>(i0, j0) = B] *)
Definition set_block (i0 j0 h w : nat) (B M : Matrix) : Matrix :=
  fun i j => if in_block i0 j0 h w i j then B (i - i0)%nat (j - j0)%nat else M i j.

(** [Eigen::Map<const Eigen::Matrix3d>(data)]: Eigen's default storage
    order is column-major, so coefficient (i, j) is [data[i + 3 * j]]. *)
Definition Map_Matrix3d (data : list Q) : Matrix :=
  fun i j => nth (i + 3 * j) data 0.

(** [M.data()[k]] for [k < rows * cols] of a [RowMajor] matrix with [cols]
    columns. *)
Definition data_RowMajor (rows cols : nat) (M : Matrix) : list Q :=
  map (fun k => M (k / cols)%nat (k mod cols)%nat) (seq 0 (rows * cols)).

(** [M << A, B, C, D] for four 3x3 blocks and a 6x6 [M]: the comma
    initializer fills the blocks left to right, then top to bottom. *)
Definition comma_init_2x2 (A B C D : Matrix) (M : Matrix) : Matrix :=
  set_block 3 3 3 3 D (set_block 3 0 3 3 C (set_block 0 3 3 3 B (set_block 0 0 3 3 A M))).

(** Squared Euclidean norm of a 3-vector, [v.squaredNorm()]. *)
Definition squaredNorm (v : Vector) : Q := sum_upto 3 (fun k => v k * v k).

(** [v.dot(w)] on 3-vectors *)
Definition dot (v w : Vector) : Q := sum_upto 3 (fun k => v k * w k).

(** Determinant of the leading 3x3 block. *)
Definition determinant (M : Matrix) : Q :=
  M 0%nat 0%nat * (M 1%nat 1%nat * M 2%nat 2%nat - M 1%nat 2%nat * M 2%nat 1%nat)
  - M 0%nat 1%nat * (M 1%nat 0%nat * M 2%nat 2%nat - M 1%nat 2%nat * M 2%nat 0%nat)
  + M 0%nat 2%nat * (M 1%nat 0%nat * M 2%nat 1%nat - M 1%nat 1%nat * M 2%nat 0%nat).

(** Cofactor (i, j) of a 3x3 matrix: the 2x2 minor on the other two rows
    and columns taken cyclically, which carries the sign. *)
Definition cofactor (M : Matrix) (i j : nat) : Q :=
  let i1 := ((i + 1) mod 3)%nat in
  let i2 := ((i + 2) mod 3)%nat in
  let j1 := ((j + 1) mod 3)%nat in
  let j2 := ((j + 2) mod 3)%nat in
  M i1 j1 * M i2 j2 - M i1 j2 * M i2 j1.

(** [M.inverse()] for a 3x3 matrix: Eigen computes it from the cofactors,
    [inverse(i, j) = cofactor(j, i) / determinant]. *)
Definition inverse (M : Matrix) : Matrix :=
  fun i j => cofactor M j i / determinant M.

End Eigen.
Import Eigen.

(* ================================================================= *)
(** ** Messages and filter data *)

(** [sensor_msgs::NavSatFix], the fields the node reads.  [status] is
    [status.status] (an [int8]); [stamp] is [header.stamp.toSec()]. *)
Record NavSatFix := mkNavSatFix {
  status : Z;
  stamp : Q;
  latitude : Q;
  longitude : Q;
  altitude : Q;
  position_covariance : list Q
}.

(** Modelled from the spec: [ImuData] of kf.hpp (InertialSample): timestamp,
    specific force and angular rate. *)
Record ImuData := mkImuData {
  imu_timestamp : Q;
  acc : Vector;
  gyr : Vector
}.

(** Modelled from the spec: [GpsData] of gnss.hpp (AbsoluteFix), with the
    members the node assigns: [timestamp], [lla], [cov]. *)
Record GpsData := mkGpsData {
  gps_timestamp : Q;
  lla : Vector;
  gps_cov : Matrix
}.

(** Modelled from the spec: [State] of kf.hpp (NominalState together with the
    15x15 ErrorCovariance).  The node reads and writes [timestamp], [p_GI],
    [v_GI], [r_GI] and [cov]; the two biases are the spec's. *)
Record State := mkState {
  timestamp : Q;
  p_GI : Vector;
  v_GI : Vector;
  r_GI : Matrix;
  acc_bias : Vector;
  gyr_bias : Vector;
  cov : Matrix
}.

(** Modelled from the spec: the members of [KF] (kf.hpp) the node touches.
    [last_imu_ptr_] is a shared pointer, [None] while it is null. *)
Record KF := mkKF {
  initialized_ : bool;
  imu_buf_ : list ImuData;
  last_imu_ptr_ : option ImuData;
  state_ptr_ : State
}.

(** [kStateDim] *)
Definition kStateDim : nat := 15.

Record Quaternion := mkQuaternion { qx : Q; qy : Q; qz : Q; qw : Q }.

(** [geometry_msgs::Pose] *)
Record Pose := mkPose {
  position : Vector;
  orientation : Quaternion
}.

(** [std_msgs::Header], without the sequence number ROS fills in. *)
Record Header := mkHeader {
  frame_id : string;
  header_stamp : Q
}.

(** [nav_msgs::Odometry], the fields the node fills. *)
Record Odometry := mkOdometry {
  odom_header : Header;
  odom_pose : Pose;
  pose_covariance : list Q;
  twist_linear : Vector
}.

Record PoseStamped := mkPoseStamped {
  ps_header : Header;
  ps_pose : Pose
}.

(** [nav_msgs::Path] *)
Record Path := mkPath {
  path_header : Header;
  poses : list PoseStamped
}.

(** The lines the node prints. *)
Inductive Console :=
| BadGpsMessage
| NotEnoughImuData
| NotSynchronized
| SystemInitialized.

(** One line of fusion_gps.csv: timestamp, latitude, longitude, altitude. *)
Record GpsRow := mkGpsRow {
  row_time : Q;
  row_lla : Q * Q * Q
}.

(** One line of fusion_state.csv: timestamp, position, quaternion
    (x, y, z, w), geodetic position. *)
Record StateRow := mkStateRow {
  srow_time : Q;
  srow_p : Q * Q * Q;
  srow_q : Quaternion;
  srow_lla : Q * Q * Q
}.

(** [FusionNode]: its data members, and for each output (terminal,
    publishers, log files) the sequence written to it so far.  [nav_path_]
    is the last value of the path message. *)
Record FusionNode := mkFusionNode {
  kf_ptr_ : KF;
  init_lla_ : Vector;
  I_p_Gps_ : Vector;
  nav_path_ : Path;
  console : list Console;
  odom_pub_ : list Odometry;
  path_pub_ : list Path;
  file_gps_ : list GpsRow;
  file_state_ : list StateRow
}.

(** What the node calls and does not define: kf.hpp, gnss.hpp, utils, tf
    and Eigen's geometry module.  The methods of [KF] act on the filter
    object, so they are functions of it. *)
Record Collaborators := mkCollaborators {
  (** [KF::kImuBufSize] *)
  kImuBufSize : nat;
  (** [KF::init_rot_from_imudata(r_GI, imu_buf)], called on the filter's own
      orientation and buffer: the result and the filter it leaves. *)
  init_rot_from_imudata : KF -> bool * KF;
  (** [KF::update_K(H, R, K)]: the gain written to [K] and the filter. *)
  update_K : KF -> Matrix -> Matrix -> Matrix * KF;
  (** [KF::update_P(H, R, K)] *)
  update_P : KF -> Matrix -> Matrix -> Matrix -> KF;
  (** [State::operator+] with a 15-vector *)
  State_plus : State -> Vector -> State;
  (** [cg::lla2enu(init_lla, point_lla, &point_enu)] *)
  lla2enu : Vector -> Vector -> Vector;
  (** [cg::enu2lla(init_lla, point_enu, &point_lla)] *)
  enu2lla : Vector -> Vector -> Vector;
  (** [tf::poseEigenToMsg] of the isometry with the given linear part and
      translation *)
  poseEigenToMsg : Matrix -> Vector -> Pose;
  (** [Eigen::Quaterniond(r)] *)
  Quaterniond : Matrix -> Quaternion
}.

(** Modelled from the spec: [cg::skew_matrix] (not in the sources), the
    matrix of the cross product [v x _]. *)
Definition skew_matrix (v : Vector) : Matrix :=
  fun i j =>
    match i, j with
    | 0%nat, 1%nat => - v 2%nat
    | 0%nat, 2%nat => v 1%nat
    | 1%nat, 0%nat => v 2%nat
    | 1%nat, 2%nat => - v 0%nat
    | 2%nat, 0%nat => - v 1%nat
    | 2%nat, 1%nat => v 0%nat
    | _, _ => 0
    end.

(* ================================================================= *)
(** ** Double precision where it decides a branch *)

(** The integer nearest to [q], the even one of the two when [q] is half way
    between them. *)
Definition round_half_even (q : Q) : Z :=
  let n := Qnum q in
  let d := Z.pos (Qden q) in
  let f := (n / d)%Z in
  let r := (2 * (n mod d))%Z in
  if (r <? d)%Z then f
  else if (d <? r)%Z then (f + 1)%Z
  else if Z.even f then f else (f + 1)%Z.

(** For [q > 0], the [k] with [2^k <= q < 2^(k+1)]. *)
Definition Qlog2 (q : Q) : Z :=
  let k := (Z.log2 (Qnum q) - Z.log2 (Z.pos (Qden q)))%Z in
  if Qle_bool (2 ^ k) q then k else (k - 1)%Z.

(** The exponent of the unit in the last place of the binary64 numbers around
    [q > 0]: 53 significant bits, and -1074 for the subnormal numbers. *)
Definition ulp_exponent (q : Q) : Z := Z.max (Qlog2 q - 52) (-1074).

Definition round_magnitude (q : Q) : Q :=
  let e := ulp_exponent q in
  inject_Z (round_half_even (q / 2 ^ e)) * 2 ^ e.

(** The binary64 number nearest to [q], ties to even (the default rounding
    of IEEE 754).  Beyond the largest double the hardware gives an infinity;
    the value kept here compares with any finite bound as the infinity
    does. *)
Definition round_double (q : Q) : Q :=
  match q ?= 0 with
  | Eq => 0
  | Gt => round_magnitude q
  | Lt => - round_magnitude (- q)
  end.

(** [a - b] on doubles: the exact difference, rounded. *)
Definition double_minus (a b : Q) : Q := round_double (a - b).

(* ================================================================= *)
(** ** The node *)

Definition set_state_ptr (s : State) (kf : KF) : KF :=
  mkKF (initialized_ kf) (imu_buf_ kf) (last_imu_ptr_ kf) s.

Definition set_last_imu_ptr (i : ImuData) (kf : KF) : KF :=
  mkKF (initialized_ kf) (imu_buf_ kf) (Some i) (state_ptr_ kf).

Definition set_timestamp (t : Q) (s : State) : State :=
  mkState t (p_GI s) (v_GI s) (r_GI s) (acc_bias s) (gyr_bias s) (cov s).

Definition set_kf_ptr (kf : KF) (n : FusionNode) : FusionNode :=
  mkFusionNode kf (init_lla_ n) (I_p_Gps_ n) (nav_path_ n) (console n)
    (odom_pub_ n) (path_pub_ n) (file_gps_ n) (file_state_ n).

Definition set_init_lla (a : Vector) (n : FusionNode) : FusionNode :=
  mkFusionNode (kf_ptr_ n) a (I_p_Gps_ n) (nav_path_ n) (console n)
    (odom_pub_ n) (path_pub_ n) (file_gps_ n) (file_state_ n).

(** [printf] *)
Definition print (m : Console) (n : FusionNode) : FusionNode :=
  mkFusionNode (kf_ptr_ n) (init_lla_ n) (I_p_Gps_ n) (nav_path_ n)
    (console n ++ [m]) (odom_pub_ n) (path_pub_ n) (file_gps_ n) (file_state_ n).

Definition write_file_gps (r : GpsRow) (n : FusionNode) : FusionNode :=
  mkFusionNode (kf_ptr_ n) (init_lla_ n) (I_p_Gps_ n) (nav_path_ n)
    (console n) (odom_pub_ n) (path_pub_ n) (file_gps_ n ++ [r]) (file_state_ n).

(** [imu_buf_.back()]; [None] on an empty deque, where C++ leaves the
    behaviour undefined. *)
Definition back (buf : list ImuData) : option ImuData :=
  nth_error buf (List.length buf - 1).

(** The constructor's effect on the members declared in the class:
    [I_p_Gps_] has the default member initializer [Vector3d(0., 0., 0.)],
    [init_lla_] is left as allocated, the path is empty and nothing has been
    written.  [kf0] is the filter [std::make_unique<KF>] and [set_cov]
    produce. *)
Definition FusionNode_ctor (kf0 : KF) (lla0 : Vector) : FusionNode :=
  mkFusionNode kf0 lla0 (Vector3d 0 0 0) (mkPath (mkHeader EmptyString 0) [])
    [] [] [] [] [].

(** The pose covariance array of the odometry message (lines 154-160). *)
Definition pose_covariance_of (P : Matrix) : list Q :=
  let P_pp := block 0 0 P in
  let P_po := block 0 6 P in
  let P_op := block 6 0 P in
  let P_oo := block 6 6 P in
  let P_imu_pose := comma_init_2x2 P_pp P_po P_op P_oo Zero in
  data_RowMajor 6 6 P_imu_pose.

Definition triple (v : Vector) : Q * Q * Q := (v 0%nat, v 1%nat, v 2%nat).

(** [FusionNode::publish_save_state]; [now] is the reading of
    [ros::Time::now()]. *)
Definition publish_save_state (C : Collaborators) (now : Q) (n : FusionNode) : FusionNode :=
  let st := state_ptr_ (kf_ptr_ n) in
  let header := mkHeader "global" now in
  let pose := poseEigenToMsg C (r_GI st) (p_GI st) in
  let odom_msg := mkOdometry header pose (pose_covariance_of (cov st)) (v_GI st) in
  let pose_stamped := mkPoseStamped header pose in
  let path := mkPath header (poses (nav_path_ n) ++ [pose_stamped]) in
  let lla := enu2lla C (init_lla_ n) (p_GI st) in
  let q_GI := Quaterniond C (r_GI st) in
  mkFusionNode (kf_ptr_ n) (init_lla_ n) (I_p_Gps_ n) path (console n)
    (odom_pub_ n ++ [odom_msg]) (path_pub_ n ++ [path]) (file_gps_ n)
    (file_state_ n ++ [mkStateRow (timestamp st) (triple (p_GI st)) q_GI (triple lla)]).

(** The GPS data the callback builds from the message (lines 80-85). *)
Definition gps_data_of (gps_msg : NavSatFix) : GpsData :=
  mkGpsData (stamp gps_msg)
    (Vector3d (latitude gps_msg) (longitude gps_msg) (altitude gps_msg))
    (Map_Matrix3d (position_covariance gps_msg)).

(** The predicted position of the GPS antenna, [p_GI + r_GI * I_p_Gps_]. *)
Definition predicted_position (n : FusionNode) : Vector :=
  let st := state_ptr_ (kf_ptr_ n) in
  vadd (p_GI st) (mulv 3 (r_GI st) (I_p_Gps_ n)).

(** Lines 110-118: [p_G_Gps - (p_GI + r_GI * I_p_Gps_)], with [p_G_Gps] the
    fix converted by [lla2enu] from the anchor [init_lla_]. *)
Definition residual_of (C : Collaborators) (n : FusionNode) (gps : GpsData) : Vector :=
  let p_G_Gps := lla2enu C (init_lla_ n) (lla gps) in
  vsub p_G_Gps (predicted_position n).

(** Lines 121-124.  In C++ the unary minus applies to [r_GI] before the
    product. *)
Definition jacobian_of (r : Matrix) (I_p_Gps : Vector) : Matrix :=
  let H := Zero in
  let H := set_block 0 0 3 3 Identity H in
  set_block 0 6 3 3 (mmul 3 (mneg r) (skew_matrix I_p_Gps)) H.

(** Lines 126-140: gain, covariance update, correction of the state by
    [K * residual], publication and logging. *)
Definition kalman_correct (C : Collaborators) (now : Q) (gps : GpsData)
    (residual : Vector) (H : Matrix) (n : FusionNode) : FusionNode :=
  let kf := kf_ptr_ n in
  let R := gps_cov gps in
  let '(K, kf1) := update_K C kf H R in
  let kf2 := update_P C kf1 H R K in
  let kf3 := set_state_ptr (State_plus C (state_ptr_ kf2) (mulv 3 K residual)) kf2 in
  let n1 := publish_save_state C now (set_kf_ptr kf3 n) in
  write_file_gps (mkGpsRow (gps_timestamp gps) (triple (lla gps))) n1.

(** Lines 110-140: the measurement update of an initialized filter. *)
Definition gps_update (C : Collaborators) (now : Q) (gps : GpsData) (n : FusionNode) : FusionNode :=
  let residual := residual_of C n gps in
  let H := jacobian_of (r_GI (state_ptr_ (kf_ptr_ n))) (I_p_Gps_ n) in
  kalman_correct C now gps residual H n.

(** [FusionNode::gps_callback].  The result is [None] where the C++ program
    has undefined behaviour ([back()] of an empty buffer, reachable only
    when [kImuBufSize] is 0). *)
Definition gps_callback (C : Collaborators) (now : Q) (gps_msg : NavSatFix)
    (n : FusionNode) : option FusionNode :=
  if negb (status gps_msg =? 2)%Z then Some (print BadGpsMessage n)
  else
    let gps := gps_data_of gps_msg in
    let kf := kf_ptr_ n in
    if negb (initialized_ kf) then
      if (List.length (imu_buf_ kf) <? kImuBufSize C)%nat then Some (print NotEnoughImuData n)
      else
        match back (imu_buf_ kf) with
        | None => None
        | Some last_imu =>
            let kf1 := set_last_imu_ptr last_imu kf in
            if negb (Qle_bool (Qabs (double_minus (gps_timestamp gps) (imu_timestamp last_imu)))
                       (1 # 2))
            then Some (print NotSynchronized (set_kf_ptr kf1 n))
            else
              let kf2 := set_state_ptr (set_timestamp (imu_timestamp last_imu) (state_ptr_ kf1)) kf1 in
              let '(ok, kf3) := init_rot_from_imudata C kf2 in
              if negb ok then Some (set_kf_ptr kf3 n)
              else Some (print SystemInitialized (set_init_lla (lla gps) (set_kf_ptr kf3 n)))
        end
    else Some (gps_update C now gps n).

(** The node's life: constructed, then driven by the two subscriptions.  The
    IMU subscription is bound to [KF::imu_callback] on the filter object
    (line 36), which is not in the sources: it may change the filter in any
    way, and nothing else. *)
Inductive reachable (C : Collaborators) (kf0 : KF) (lla0 : Vector) : FusionNode -> Prop :=
| reach_ctor : reachable C kf0 lla0 (FusionNode_ctor kf0 lla0)
| reach_gps : forall n now gps_msg n',
    reachable C kf0 lla0 n ->
    gps_callback C now gps_msg n = Some n' ->
    reachable C kf0 lla0 n'
| reach_imu : forall n kf',
    reachable C kf0 lla0 n ->
    reachable C kf0 lla0 (set_kf_ptr kf' n).

(* ================================================================= *)
(** ** The filter of the specification *)

(** Modelled from the spec: [KF::update_K] (kf.hpp is not in the sources),
    section 4.4 step 5: [K = P * H^T * (H * P * H^T + R)^-1]. *)
Definition update_K_spec (kf : KF) (H R : Matrix) : Matrix * KF :=
  let P := cov (state_ptr_ kf) in
  let S := madd (mmul kStateDim (mmul kStateDim H P) (transpose H)) R in
  (mmul 3 (mmul kStateDim P (transpose H)) (inverse S), kf).

Definition set_cov (P : Matrix) (s : State) : State :=
  mkState (timestamp s) (p_GI s) (v_GI s) (r_GI s) (acc_bias s) (gyr_bias s) P.

(** Modelled from the spec: [KF::update_P] (kf.hpp is not in the sources),
    section 4.4 step 6: [P <- (I - K * H) * P]. *)
Definition update_P_spec (kf : KF) (H R K : Matrix) : KF :=
  let P := cov (state_ptr_ kf) in
  let I_KH := msub Identity (mmul 3 K H) in
  set_state_ptr (set_cov (mmul kStateDim I_KH P) (state_ptr_ kf)) kf.

(** Modelled from the spec: [State::operator+] (kf.hpp is not in the
    sources), section 4.4 step 7: position, velocity and bias corrections are
    additive, the orientation is composed on the right with the rotation
    [Exp] of the orientation-error correction.  The error state is ordered
    position, velocity, orientation, accelerometer bias, gyroscope bias. *)
Definition State_plus_spec (Exp : Vector -> Matrix) (s : State) (delta_x : Vector) : State :=
  mkState (timestamp s)
    (vadd (p_GI s) (segment 0 delta_x))
    (vadd (v_GI s) (segment 3 delta_x))
    (mmul 3 (r_GI s) (Exp (segment 6 delta_x)))
    (vadd (acc_bias s) (segment 9 delta_x))
    (vadd (gyr_bias s) (segment 12 delta_x))
    (cov s).

(** The collaborators [C] with the filter of the specification in place of
    its three update routines. *)
Definition spec_filter (Exp : Vector -> Matrix) (C : Collaborators) : Collaborators :=
  mkCollaborators (kImuBufSize C) (init_rot_from_imudata C)
    update_K_spec update_P_spec (State_plus_spec Exp)
    (lla2enu C) (enu2lla C) (poseEigenToMsg C) (Quaterniond C).

(* ================================================================= *)
(** ** Predicates of the statements *)

(** Equality of the coefficients of two vectors of dimension [n]. *)
Definition vec_eq (n : nat) (u v : Vector) : Prop :=
  forall i, (i < n)%nat -> u i == v i.

(** Equality of the coefficients of two [n] x [m] matrices. *)
Definition mat_eq (n m : nat) (A B : Matrix) : Prop :=
  forall i j, (i < n)%nat -> (j < m)%nat -> A i j == B i j.

Definition symmetric3 (A : Matrix) : Prop :=
  forall i j, (i < 3)%nat -> (j < 3)%nat -> A i j == A j i.

(** [v^T A v] for a 3x3 matrix *)
Definition quad_form (A : Matrix) (v : Vector) : Q := dot v (mulv 3 A v).

Definition pos_semidef3 (A : Matrix) : Prop :=
  forall v, 0 <= quad_form A v.

Definition pos_def3 (A : Matrix) : Prop :=
  forall v, ~ vec_eq 3 v (Vector3d 0 0 0) -> 0 < quad_form A v.

(** The squared norm of [v] weighted by the inverse of the measurement
    covariance, [v^T R^-1 v]. *)
Definition weighted_sqnorm (R : Matrix) (v : Vector) : Q :=
  quad_form (inverse R) v.

(** Rows and columns of the 15x15 error covariance that make the 6x6 pose
    covariance: position (0-2), then orientation (6-8). *)
Definition pose_index (k : nat) : nat := if (k <? 3)%nat then k else (k + 3)%nat.

(** The two timestamps are more than 0.5 + 2^-54 s apart; 0.5 + 2^-54 is
    half way between 0.5 and the next double above it. *)
Definition apart_by_more_than_half_second (gps_msg : NavSatFix) (last_imu : ImuData)
    : Prop :=
  (1 # 2) + 2 ^ (-54) < Qabs (stamp gps_msg - imu_timestamp last_imu).

(** The desynchronisation test of line 94,
    [std::abs(gps timestamp - imu timestamp) > 0.5] on doubles. *)
Definition desynchronised (gps_msg : NavSatFix) (last_imu : ImuData) : Prop :=
  (1 # 2) < Qabs (double_minus (stamp gps_msg) (imu_timestamp last_imu)).

(* ================================================================= *)
(** ** Test doubles and sample data

    Implementations of the collaborators and inputs on which the node can be
    run; the statements below are instantiated on them. *)

(** A local frame in which the conversion is the offset from the anchor. *)
Definition offset_lla2enu (anchor point : Vector) : Vector := vsub point anchor.
Definition offset_enu2lla (anchor point : Vector) : Vector := vadd anchor point.

(** A levelling that succeeds without turning the orientation and marks the
    filter initialized. *)
Definition level_ok (kf : KF) : bool * KF :=
  (true, mkKF true (imu_buf_ kf) (last_imu_ptr_ kf) (state_ptr_ kf)).

(** A levelling that fails and leaves the filter alone. *)
Definition level_fails (kf : KF) : bool * KF := (false, kf).

Definition unit_quaternion : Quaternion := mkQuaternion 0 0 0 1.

(** The filter of the specification with no rotation increment, a buffer
    threshold of 2 samples and the offset frame. *)
Definition test_collaborators (level : KF -> bool * KF) : Collaborators :=
  mkCollaborators 2 level update_K_spec update_P_spec
    (State_plus_spec (fun _ => Identity))
    offset_lla2enu offset_enu2lla
    (fun _ p => mkPose p unit_quaternion) (fun _ => unit_quaternion).

Definition imu_at (t : Q) : ImuData :=
  mkImuData t (Vector3d 0 0 (981 # 100)) (Vector3d 0 0 0).

(** A state at the origin with identity orientation and covariance [P]. *)
Definition state_at_origin (P : Matrix) : State :=
  mkState 0 (Vector3d 0 0 0) (Vector3d 0 0 0) Identity (Vector3d 0 0 0) (Vector3d 0 0 0) P.

(** A filter that is not initialized and has buffered two samples. *)
Definition kf_waiting : KF :=
  mkKF false [imu_at 9; imu_at 10] None (state_at_origin Identity).

(** An initialized filter with covariance [P]. *)
Definition kf_running (P : Matrix) : KF :=
  mkKF true [imu_at 9; imu_at 10] (Some (imu_at 10)) (state_at_origin P).

Definition node_waiting : FusionNode := FusionNode_ctor kf_waiting (Vector3d 0 0 0).
Definition node_running (P : Matrix) : FusionNode :=
  FusionNode_ctor (kf_running P) (Vector3d 0 0 0).

(** A fix of quality [q] at time [t] and coordinates [(x, y, z)], with the
    covariance array [R]. *)
Definition fix_msg (q : Z) (t x y z : Q) (R : list Q) : NavSatFix :=
  mkNavSatFix q t x y z R.

Definition unit_covariance : list Q := [1; 0; 0; 0; 1; 0; 0; 0; 1].

(** An error covariance whose position block couples the first two axes
    ([100, 99; 99, 100]) and is the identity elsewhere. *)
Definition correlated_cov : Matrix :=
  fun i j =>
    match i, j with
    | 0%nat, 0%nat => 100
    | 0%nat, 1%nat => 99
    | 1%nat, 0%nat => 99
    | 1%nat, 1%nat => 100
    | _, _ => Identity i j
    end.

(** A diagonal measurement covariance with variances 1, 100 and 1. *)
Definition anisotropic_covariance : list Q := [1; 0; 0; 0; 100; 0; 0; 0; 1].

(* ================================================================= *)
(** ** The subscription loop and derived views *)

(** [ros::spin()] with the GPS subscription of line 37: the callback runs on
    each delivered message in turn; each message comes with the clock
    reading of its call.  The run stops where a call is undefined. *)
Fixpoint gps_callbacks (C : Collaborators) (msgs : list (Q * NavSatFix))
    (n : FusionNode) : option FusionNode :=
  match msgs with
  | [] => Some n
  | (now, gps_msg) :: rest =>
      match gps_callback C now gps_msg n with
      | None => None
      | Some n' => gps_callbacks C rest n'
      end
  end.

(** Lines 164-166: the stamped pose appended to the path copies the header
    and the pose of the odometry message. *)
Definition pose_stamped_of (o : Odometry) : PoseStamped :=
  mkPoseStamped (odom_header o) (odom_pose o).

(** The outputs of a node agree with each other: the path holds the stamped
    poses of the odometry messages in order, every output has one entry per
    odometry message, and the k-th published path is the first k+1 poses. *)
Definition outputs_consistent (n : FusionNode) : Prop :=
  poses (nav_path_ n) = map pose_stamped_of (odom_pub_ n) /\
  List.length (path_pub_ n) = List.length (odom_pub_ n) /\
  List.length (file_state_ n) = List.length (odom_pub_ n) /\
  List.length (file_gps_ n) = List.length (odom_pub_ n) /\
  forall k path,
    nth_error (path_pub_ n) k = Some path ->
    poses path = firstn (S k) (poses (nav_path_ n)).

(** Whether a message is used for a measurement update: quality 2 and a
    filter that is initialized when the callback starts. *)
Definition used_for_update (gps_msg : NavSatFix) (n : FusionNode) : bool :=
  (status gps_msg =? 2)%Z && initialized_ (kf_ptr_ n).

(* ================================================================= *)
(** ** The initialized flag *)

(** Modelled from the spec: the node never writes [initialized_]; only the
    routines of kf.hpp (not in the sources) can.  Sections 3, 4.2 and 7: the
    filter is populated by the initialization procedure exactly once; a
    levelling that fails does not proceed and leaves the filter
    uninitialized and its state as it was; a levelling that succeeds leaves
    the filter initialized; the two update routines act on the gain and the
    covariance and keep the flag. *)
Definition initialization_contract (C : Collaborators) : Prop :=
  (forall kf kf',
     init_rot_from_imudata C kf = (false, kf') ->
     initialized_ kf' = initialized_ kf /\ state_ptr_ kf' = state_ptr_ kf) /\
  (forall kf kf',
     init_rot_from_imudata C kf = (true, kf') -> initialized_ kf' = true) /\
  (forall kf H R, initialized_ (snd (update_K C kf H R)) = initialized_ kf) /\
  (forall kf H R K, initialized_ (update_P C kf H R K) = initialized_ kf).

(** What the two subscriptions deliver: a fix with the clock reading of its
    call, or an inertial sample, given by what [KF::imu_callback] (kf.hpp)
    does to the filter with it. *)
Inductive Event :=
| GpsFix (now : Q) (gps_msg : NavSatFix)
| ImuSample (imu_callback : KF -> KF).

(** [ros::spin()] over both subscriptions (lines 36-37). *)
Fixpoint spin (C : Collaborators) (events : list Event) (n : FusionNode)
    : option FusionNode :=
  match events with
  | [] => Some n
  | GpsFix now gps_msg :: rest =>
      match gps_callback C now gps_msg n with
      | None => None
      | Some n' => spin C rest n'
      end
  | ImuSample imu_callback :: rest =>
      spin C rest (set_kf_ptr (imu_callback (kf_ptr_ n)) n)
  end.

(** An inertial callback that keeps the initialized flag. *)
Definition keeps_flag (e : Event) : Prop :=
  match e with
  | GpsFix _ _ => True
  | ImuSample f => forall kf, initialized_ (f kf) = initialized_ kf
  end.

(** The number of initializations reported in a list of printed lines. *)
Definition initializations (out : list Console) : nat :=
  List.length (filter (fun m => match m with SystemInitialized => true | _ => false end) out).

(** The double nearest to 0.501 and the double nearest to 0.001, as
    [ros::Time::toSec] gives them for 501000000 ns and 1000000 ns. *)
Definition stamp_0_501 : Q := round_double (501 # 1000).
Definition stamp_0_001 : Q := round_double (1 # 1000).

(** A filter that is not initialized and has buffered two samples, the
    latest at 0.001 s. *)
Definition kf_waiting_early : KF :=
  mkKF false [imu_at 0; imu_at stamp_0_001] None (state_at_origin Identity).

(* ================================================================= *)
(** ** Rounding to double precision *)

(** The rounding on known doubles: 0.1 is 3602879701896397 * 2^-55, a tie
    goes to the even neighbour, and below 2^-1022 the spacing stays 2^-1074. *)
Example round_double_tenth :
  round_double (1 # 10) == 3602879701896397 # 36028797018963968.
Proof. vm_compute. reflexivity. Qed.

Example round_double_tie_to_even :
  round_double (inject_Z (2 ^ 53 + 1)) == inject_Z (2 ^ 53) /\
  round_double (inject_Z (2 ^ 53 + 3)) == inject_Z (2 ^ 53 + 4).
Proof. split; vm_compute; reflexivity. Qed.

Example round_double_subnormal :
  round_double (3 * 2 ^ (-1075)) == 2 * 2 ^ (-1074) /\
  round_double (2 ^ (-1076)) == 0.
Proof. split; vm_compute; reflexivity. Qed.

(** The rounded integer is the floor or the floor plus one. *)
Lemma round_half_even_bounds (y : Q) :
  (Qfloor y <= round_half_even y <= Qfloor y + 1)%Z.
Proof.
  unfold round_half_even, Qfloor. destruct y as [n d]. cbn [Qnum Qden].
  destruct (_ <? _)%Z; [lia|]. destruct (_ <? _)%Z; [lia|].
  destruct (Z.even _); lia.
Qed.

Lemma round_half_even_above_even (y : Q) (m : Z) :
  Z.even m = true -> inject_Z m <= y ->
  ((m < round_half_even y)%Z <-> inject_Z m + (1 # 2) < y).
Proof.
  intros Hev Hle.
  pose proof (round_half_even_bounds y) as [Hlo Hhi].
  pose proof (Qfloor_le y) as Hfl. pose proof (Qlt_floor y) as Hfu.
  assert (Hm : (m <= Qfloor y)%Z).
  { assert (Hlt : (m < Qfloor y + 1)%Z).
    { rewrite Zlt_Qlt. apply Qle_lt_trans with y; [exact Hle|exact Hfu]. }
    lia. }
  destruct (Z.eq_dec (Qfloor y) m) as [E|N].
  - (* floor = m *)
    unfold round_half_even in *. unfold Qfloor in *. destruct y as [n d].
    cbn [Qnum Qden] in *.
    pose proof (Z.div_mod n (Z.pos d) ltac:(lia)) as Hdm.
    pose proof (Z.mod_pos_bound n (Z.pos d) ltac:(lia)) as Hmb.
    rewrite E in *.
    assert (Hy : inject_Z m + (1 # 2) < n # d <-> (Z.pos d < 2 * (n mod Z.pos d))%Z).
    { set (r := (n mod Z.pos d)%Z) in *.
      unfold Qlt, Qplus, inject_Z. cbn [Qnum Qden]. rewrite ?Pos2Z.inj_mul.
      change (Z.pos 2) with 2%Z. change (Z.pos 1) with 1%Z. nia. }
    rewrite Hy.
    destruct (2 * (n mod Z.pos d) <? Z.pos d)%Z eqn:E1.
    + apply Z.ltb_lt in E1. lia.
    + apply Z.ltb_ge in E1. destruct (Z.pos d <? 2 * (n mod Z.pos d))%Z eqn:E2.
      * apply Z.ltb_lt in E2. lia.
      * apply Z.ltb_ge in E2. rewrite Hev. lia.
  - assert (Hgt : (m + 1 <= Qfloor y)%Z) by lia.
    split; intros _.
    + apply Qlt_le_trans with (inject_Z (m + 1)).
      * rewrite inject_Z_plus. change (inject_Z 1) with 1. lra.
      * apply Qle_trans with (inject_Z (Qfloor y)); [|exact Hfl].
        rewrite <- Zle_Qle. exact Hgt.
    + lia.
Qed.

(** Powers of two. *)
Lemma pow2_pos (k : Z) : 0 < 2 ^ k.
Proof. apply Qpower_0_lt. reflexivity. Qed.

Lemma pow2_plus (a b : Z) : 2 ^ (a + b) == 2 ^ a * 2 ^ b.
Proof. apply Qpower_plus. discriminate. Qed.

Lemma pow2_le (a b : Z) : (a <= b)%Z -> 2 ^ a <= 2 ^ b.
Proof.
  intros H. replace b with (a + (b - a))%Z by lia. rewrite pow2_plus.
  assert (1 <= 2 ^ (b - a)).
  { apply Qpower_1_le; [|lia]. discriminate. }
  pose proof (pow2_pos a). nra.
Qed.

Lemma pow2_inject (k : Z) : (0 <= k)%Z -> 2 ^ k == inject_Z (2 ^ k).
Proof. intros H. rewrite Zpower_Qpower by exact H. reflexivity. Qed.

Lemma Qlog2_spec (q : Q) : 0 < q -> 2 ^ Qlog2 q <= q /\ q < 2 ^ (Qlog2 q + 1).
Proof.
  intros Hq. unfold Qlog2.
  destruct q as [n d]. cbn [Qnum Qden].
  assert (Hn : (0 < n)%Z) by (unfold Qlt in Hq; cbn in Hq; lia).
  pose proof (Z.log2_spec n Hn) as [Hn1 Hn2].
  pose proof (Z.log2_spec (Z.pos d) ltac:(lia)) as [Hd1 Hd2].
  pose proof (Z.log2_nonneg n) as Ha. pose proof (Z.log2_nonneg (Z.pos d)) as Hb.
  set (a := Z.log2 n) in *. set (b := Z.log2 (Z.pos d)) in *.
  assert (Hnq : inject_Z n == (n # d) * inject_Z (Z.pos d)).
  { unfold Qeq, Qmult, inject_Z. cbn. lia. }
  assert (Hdpos : 0 < inject_Z (Z.pos d)) by (unfold Qlt, inject_Z; cbn; lia).
  assert (Hna : 2 ^ a <= inject_Z n) by (rewrite pow2_inject by lia; rewrite <- Zle_Qle; lia).
  assert (Hna' : inject_Z n < 2 ^ (a + 1))
    by (rewrite pow2_inject by lia; rewrite <- Zlt_Qlt; replace (a + 1)%Z with (Z.succ a) by lia; lia).
  assert (Hdb : 2 ^ b <= inject_Z (Z.pos d)) by (rewrite pow2_inject by lia; rewrite <- Zle_Qle; lia).
  assert (Hdb' : inject_Z (Z.pos d) < 2 ^ (b + 1))
    by (rewrite pow2_inject by lia; rewrite <- Zlt_Qlt; replace (b + 1)%Z with (Z.succ b) by lia; lia).
  pose proof (pow2_pos b) as Pb. pose proof (pow2_pos (a - b)) as Pab.
  pose proof (pow2_pos (a - b - 1)) as Pab1.
  assert (Ea : 2 ^ a == 2 ^ (a - b) * 2 ^ b) by (rewrite <- pow2_plus; f_equiv; lia).
  assert (Ea1 : 2 ^ (a + 1) == 2 ^ (a - b + 1) * 2 ^ b) by (rewrite <- pow2_plus; f_equiv; lia).
  assert (Eb1 : 2 ^ a == 2 ^ (a - b - 1) * 2 ^ (b + 1)) by (rewrite <- pow2_plus; f_equiv; lia).
  destruct (Qle_bool (2 ^ (a - b)) (n # d)) eqn:E.
  - apply Qle_bool_iff in E. split; [exact E|].
    (* q * d = n < 2^(a+1) = 2^(k+1) 2^b <= 2^(k+1) d *)
    pose proof (pow2_pos (a - b + 1)) as P1.
    apply Qnot_le_lt. intros Hc.
    assert (2 ^ (a - b + 1) * 2 ^ b <= (n # d) * inject_Z (Z.pos d)) by nra.
    lra.
  - assert (Hlt : n # d < 2 ^ (a - b)).
    { apply Qnot_le_lt. intros Hc. apply Qle_bool_iff in Hc. congruence. }
    replace (a - b - 1 + 1)%Z with (a - b)%Z by lia. split; [|exact Hlt].
    apply Qnot_lt_le. intros Hc.
    assert ((n # d) * inject_Z (Z.pos d) < 2 ^ (a - b - 1) * 2 ^ (b + 1)) by nra.
    lra.
Qed.

Lemma Qfloor_ge (y : Q) (m : Z) : inject_Z m <= y -> (m <= Qfloor y)%Z.
Proof.
  intros H. pose proof (Qlt_floor y) as Hfu.
  assert (Hlt : (m < Qfloor y + 1)%Z).
  { rewrite Zlt_Qlt. apply Qle_lt_trans with y; assumption. }
  lia.
Qed.

Lemma Qfloor_lt (y : Q) (m : Z) : y < inject_Z m -> (Qfloor y < m)%Z.
Proof.
  intros H. pose proof (Qfloor_le y) as Hfl.
  rewrite Zlt_Qlt. apply Qle_lt_trans with y; assumption.
Qed.

Lemma div_pow2 (x : Q) (e : Z) : x / 2 ^ e * 2 ^ e == x.
Proof. field. apply Qpower_not_0. discriminate. Qed.

(** The rounded magnitude exceeds one half exactly when the magnitude
    exceeds the midpoint between one half and the next double. *)
Lemma round_magnitude_above_half (x : Q) :
  0 < x ->
  ((1 # 2) < round_magnitude x <-> (1 # 2) + (1 # 18014398509481984) < x).
Proof.
  intros Hx. destruct (Qlog2_spec x Hx) as [Hlo Hhi].
  unfold round_magnitude, ulp_exponent.
  set (L := Qlog2 x) in *.
  set (e := Z.max (L - 52) (-1074)).
  pose proof (pow2_pos e) as Pe.
  pose proof (div_pow2 x e) as Hy.
  set (y := x / 2 ^ e) in *.
  pose proof (round_half_even_bounds y) as [Hrl Hrh].
  destruct (Z_lt_le_dec L (-1)) as [Hneg|Hge]; [|destruct (Z.eq_dec L (-1)) as [HL|HL]].
  - (* x < 1/2 *)
    assert (Hx2 : x < 1 # 2).
    { apply Qlt_le_trans with (2 ^ (L + 1)); [exact Hhi|].
      change (1 # 2) with (2 ^ (-1)). apply pow2_le. lia. }
    assert (He1 : (L - 52 <= e)%Z) by (unfold e; lia).
    assert (He2 : (e <= -54)%Z) by (unfold e; lia).
    assert (Hy53 : y < inject_Z (2 ^ 53)).
    { rewrite <- pow2_inject by lia.
      apply Qnot_le_lt. intros Hc.
      assert (H1 : 2 ^ 53 * 2 ^ (L - 52) <= y * 2 ^ e).
      { pose proof (pow2_le _ _ He1). pose proof (pow2_pos (L - 52)).
        pose proof (pow2_pos 53). nra. }
      rewrite <- pow2_plus in H1. replace (53 + (L - 52))%Z with (L + 1)%Z in H1 by lia.
      lra. }
    apply Qfloor_lt in Hy53.
    assert (Hr : inject_Z (round_half_even y) <= inject_Z (2 ^ 53))
      by (rewrite <- Zle_Qle; lia).
    rewrite <- pow2_inject in Hr by lia.
    assert (Hup : inject_Z (round_half_even y) * 2 ^ e <= 1 # 2).
    { apply Qle_trans with (2 ^ 53 * 2 ^ e); [nra|].
      rewrite <- pow2_plus. change (1 # 2) with (2 ^ (-1)). apply pow2_le. lia. }
    split; intros H; exfalso.
    + lra.
    + assert (0 < 1 # 18014398509481984) by reflexivity. lra.
  - (* 1/2 <= x < 1 *)
    assert (Ee : e = (-53)%Z) by (unfold e; lia).
    rewrite HL in Hlo, Hhi. change (2 ^ (-1 + 1)) with 1 in Hhi.
    change (2 ^ (-1)) with (1 # 2) in Hlo.
    rewrite Ee in *.
    assert (E53 : 2 ^ (-53) == 1 # 9007199254740992) by reflexivity.
    rewrite E53 in *.
    assert (Hm : inject_Z (2 ^ 52) <= y).
    { change (inject_Z (2 ^ 52)) with (4503599627370496 # 1). nra. }
    pose proof (round_half_even_above_even y (2 ^ 52) eq_refl Hm) as Hiff.
    change (inject_Z (2 ^ 52)) with (4503599627370496 # 1) in Hiff.
    split; intros H.
    + assert (Hr : (2 ^ 52 < round_half_even y)%Z).
      { rewrite Zlt_Qlt. change (inject_Z (2 ^ 52)) with (4503599627370496 # 1). nra. }
      apply Hiff in Hr. nra.
    + assert (Hr : (2 ^ 52 < round_half_even y)%Z) by (apply Hiff; nra).
      rewrite Zlt_Qlt in Hr. change (inject_Z (2 ^ 52)) with (4503599627370496 # 1) in Hr.
      nra.
  - (* 1 <= x *)
    assert (HL0 : (0 <= L)%Z) by lia.
    assert (Ee : e = (L - 52)%Z) by (unfold e; lia).
    assert (Hx1 : 1 <= x).
    { apply Qle_trans with (2 ^ L); [|exact Hlo].
      change 1 with (2 ^ 0). apply pow2_le. lia. }
    assert (Hy52 : inject_Z (2 ^ 52) <= y).
    { rewrite <- pow2_inject by lia.
      apply Qnot_lt_le. intros Hc.
      assert (H1 : y * 2 ^ e < 2 ^ 52 * 2 ^ e) by nra.
      rewrite <- pow2_plus, Ee in H1. replace (52 + (L - 52))%Z with L in H1 by lia.
      rewrite Ee in Hy. lra. }
    apply Qfloor_ge in Hy52.
    assert (Hr : inject_Z (2 ^ 52) <= inject_Z (round_half_even y))
      by (rewrite <- Zle_Qle; lia).
    rewrite <- pow2_inject in Hr by lia.
    assert (Hdown : 1 <= inject_Z (round_half_even y) * 2 ^ e).
    { apply Qle_trans with (2 ^ 52 * 2 ^ e); [|nra].
      rewrite <- pow2_plus. change 1 with (2 ^ 0). apply pow2_le. lia. }
    split; intros _.
    + assert ((1 # 18014398509481984) < 1 # 2) by reflexivity. lra.
    + lra.
Qed.

Lemma round_magnitude_nonneg (x : Q) : 0 < x -> 0 <= round_magnitude x.
Proof.
  intros Hx. unfold round_magnitude.
  set (e := ulp_exponent x). pose proof (pow2_pos e) as Pe.
  pose proof (div_pow2 x e) as Hy. set (y := x / 2 ^ e) in *.
  assert (Hy0 : inject_Z 0 <= y).
  { change (inject_Z 0) with 0. apply Qnot_lt_le. intros Hc. nra. }
  apply Qfloor_ge in Hy0.
  pose proof (round_half_even_bounds y) as [Hrl _].
  assert (Hr : inject_Z 0 <= inject_Z (round_half_even y)) by (rewrite <- Zle_Qle; lia).
  change (inject_Z 0) with 0 in Hr. nra.
Qed.

(** The test of line 94 in exact terms: the double nearest to [q] is beyond
    0.5 in magnitude exactly when [q] is beyond 0.5 + 2^-54. *)
Lemma round_double_above_half (q : Q) :
  (1 # 2) < Qabs (round_double q) <-> (1 # 2) + (1 # 18014398509481984) < Qabs q.
Proof.
  unfold round_double. destruct (q ?= 0) eqn:E.
  - apply Qeq_alt in E. rewrite E.
    split; intros H; vm_compute in H; discriminate.
  - apply Qlt_alt in E.
    assert (Hpos : 0 < - q) by lra.
    rewrite Qabs_opp, (Qabs_pos _ (round_magnitude_nonneg (- q) Hpos)).
    rewrite (Qabs_neg q) by lra.
    apply round_magnitude_above_half, Hpos.
  - apply Qgt_alt in E.
    rewrite (Qabs_pos _ (round_magnitude_nonneg q E)).
    rewrite (Qabs_pos q) by lra.
    apply round_magnitude_above_half, E.
Qed.

Lemma desynchronised_exact (gps_msg : NavSatFix) (last_imu : ImuData) :
  desynchronised gps_msg last_imu <-> apart_by_more_than_half_second gps_msg last_imu.
Proof.
  unfold desynchronised, apart_by_more_than_half_second, double_minus.
  change (2 ^ (-54)) with (1 # 18014398509481984).
  apply round_double_above_half.
Qed.
(* ================================================================= *)
(** ** Control flow of the callback *)

Ltac unfold_eigen :=
  unfold residual_of, predicted_position, jacobian_of, squaredNorm, dot, mulv, mmul,
    madd, msub, mneg, vadd, vsub, transpose, segment, block, Identity, Zero in *.

(** Case analysis on indices bounded by a constant. *)
Ltac index_cases i := repeat (destruct i as [|i]; try lia).

Section Callback.

Variable C : Collaborators.
Variable now : Q.

Lemma rejected_status (gps_msg : NavSatFix) (n : FusionNode) :
  status gps_msg <> 2%Z ->
  gps_callback C now gps_msg n = Some (print BadGpsMessage n).
Proof.
  intros H. unfold gps_callback.
  replace (status gps_msg =? 2)%Z with false by (symmetry; apply Z.eqb_neq, H).
  reflexivity.
Qed.

Lemma accepted_uninitialized (gps_msg : NavSatFix) (n : FusionNode) :
  status gps_msg = 2%Z ->
  initialized_ (kf_ptr_ n) = false ->
  gps_callback C now gps_msg n =
    let kf := kf_ptr_ n in
    if (List.length (imu_buf_ kf) <? kImuBufSize C)%nat then Some (print NotEnoughImuData n)
    else
      match back (imu_buf_ kf) with
      | None => None
      | Some last_imu =>
          let kf1 := set_last_imu_ptr last_imu kf in
          if negb (Qle_bool (Qabs (double_minus (stamp gps_msg) (imu_timestamp last_imu)))
                     (1 # 2))
          then Some (print NotSynchronized (set_kf_ptr kf1 n))
          else
            let kf2 := set_state_ptr (set_timestamp (imu_timestamp last_imu) (state_ptr_ kf1)) kf1 in
            let '(ok, kf3) := init_rot_from_imudata C kf2 in
            if negb ok then Some (set_kf_ptr kf3 n)
            else Some (print SystemInitialized
                         (set_init_lla (lla (gps_data_of gps_msg)) (set_kf_ptr kf3 n)))
      end.
Proof.
  intros Hs Hi. unfold gps_callback. rewrite Hs, Hi. reflexivity.
Qed.

Lemma accepted_initialized (gps_msg : NavSatFix) (n : FusionNode) :
  status gps_msg = 2%Z ->
  initialized_ (kf_ptr_ n) = true ->
  gps_callback C now gps_msg n = Some (gps_update C now (gps_data_of gps_msg) n).
Proof.
  intros Hs Hi. unfold gps_callback. rewrite Hs, Hi. reflexivity.
Qed.

Lemma desynchronised_test (gps_msg : NavSatFix) (last_imu : ImuData) :
  desynchronised gps_msg last_imu <->
  negb (Qle_bool (Qabs (double_minus (stamp gps_msg) (imu_timestamp last_imu))) (1 # 2)) = true.
Proof.
  unfold desynchronised. rewrite negb_true_iff.
  destruct (Qle_bool _ _) eqn:E.
  - apply Qle_bool_iff in E. split; [intros H; exfalso; lra | discriminate].
  - split; [reflexivity|]. intros _. apply Qnot_le_lt. intros H.
    apply Qle_bool_iff in H. congruence.
Qed.

(** The fields of a node the correction leaves alone. *)
Lemma kalman_correct_frame gps residual H n :
  let n' := kalman_correct C now gps residual H n in
  init_lla_ n' = init_lla_ n /\ I_p_Gps_ n' = I_p_Gps_ n /\ console n' = console n.
Proof.
  unfold kalman_correct. destruct (update_K C _ _ _) as [K kf1]. cbn. auto.
Qed.

Lemma gps_callback_lever_arm gps_msg n n' :
  gps_callback C now gps_msg n = Some n' -> I_p_Gps_ n' = I_p_Gps_ n.
Proof.
  unfold gps_callback.
  destruct (negb (status gps_msg =? 2)%Z); [intros [= <-]; reflexivity|].
  destruct (negb (initialized_ (kf_ptr_ n))).
  - destruct (_ <? _)%nat; [intros [= <-]; reflexivity|].
    destruct (back _) as [last_imu|]; [|discriminate].
    destruct (negb (Qle_bool _ _)); [intros [= <-]; reflexivity|].
    destruct (init_rot_from_imudata C _) as [ok kf3].
    destruct (negb ok); intros [= <-]; reflexivity.
  - intros [= <-]. apply kalman_correct_frame.
Qed.

End Callback.

Lemma reachable_lever_arm C kf0 lla0 n :
  reachable C kf0 lla0 n -> I_p_Gps_ n = Vector3d 0 0 0.
Proof.
  induction 1 as [|n now gps_msg n' _ IH Hstep|n kf' _ IH].
  - reflexivity.
  - rewrite (gps_callback_lever_arm _ _ _ _ _ Hstep). exact IH.
  - exact IH.
Qed.

Lemma jacobian_entries r l i j : (i < 3)%nat -> (j < 15)%nat ->
  jacobian_of r l i j ==
    if (j <? 3)%nat then (if (i =? j)%nat then 1 else 0)
    else if (6 <=? j)%nat && (j <? 9)%nat then - mmul 3 r (skew_matrix l) i (j - 6)%nat
    else 0.
Proof.
  intros Hi Hj. index_cases i; index_cases j; cbn; unfold mneg; try reflexivity; ring.
Qed.

Lemma pose_covariance_blocks P i j : (i < 3)%nat -> (j < 3)%nat ->
  nth (6 * i + j) (pose_covariance_of P) 0 = P i j /\
  nth (6 * i + (3 + j)) (pose_covariance_of P) 0 = P i (6 + j)%nat /\
  nth (6 * (3 + i) + j) (pose_covariance_of P) 0 = P (6 + i)%nat j /\
  nth (6 * (3 + i) + (3 + j)) (pose_covariance_of P) 0 = P (6 + i)%nat (6 + j)%nat.
Proof.
  intros Hi Hj. index_cases i; index_cases j; cbn; auto.
Qed.

Lemma pose_covariance_row_major P k : (k < 36)%nat ->
  nth k (pose_covariance_of P) 0 = P (pose_index (k / 6)) (pose_index (k mod 6)).
Proof.
  intros Hk. index_cases k; reflexivity.
Qed.

(* ================================================================= *)
(** ** Rejected fixes *)

(** C5: a fix whose quality flag is below the high-confidence value 2 is
    discarded with the warning "Bad GPS Message": the filter object (nominal
    state and error covariance included), the anchor, the lever arm and the
    path are the ones before the call, and nothing is published or written
    to either log file. *)
Theorem C5_low_quality_fix_discarded (C : Collaborators) (now : Q)
    (gps_msg : NavSatFix) (n : FusionNode) :
  (status gps_msg < 2)%Z ->
  exists n',
    gps_callback C now gps_msg n = Some n' /\
    console n' = console n ++ [BadGpsMessage] /\
    kf_ptr_ n' = kf_ptr_ n /\
    init_lla_ n' = init_lla_ n /\
    I_p_Gps_ n' = I_p_Gps_ n /\
    nav_path_ n' = nav_path_ n /\
    odom_pub_ n' = odom_pub_ n /\
    path_pub_ n' = path_pub_ n /\
    file_gps_ n' = file_gps_ n /\
    file_state_ n' = file_state_ n.
Proof.
  intros Hq. exists (print BadGpsMessage n). split.
  - apply rejected_status. lia.
  - cbn. repeat split.
Qed.

Lemma C5_low_quality_fix_discarded_witness :
  exists n',
    gps_callback (test_collaborators level_ok) 0
      (fix_msg 1 10 1 2 3 unit_covariance) (node_running Identity) = Some n' /\
    console n' = [BadGpsMessage] /\
    kf_ptr_ n' = kf_running Identity /\
    odom_pub_ n' = [] /\ file_gps_ n' = [].
Proof.
  destruct (C5_low_quality_fix_discarded (test_collaborators level_ok) 0
              (fix_msg 1 10 1 2 3 unit_covariance) (node_running Identity))
    as (n' & Hcb & Hc & Hkf & _ & _ & _ & Ho & _ & Hg & _).
  - cbn. lia.
  - exists n'. repeat split; assumption.
Defined.

(** C7 (as the code computes it): while the filter is not initialized, a fix
    whose timestamp is more than 0.5 + 2^-54 s away from the timestamp of
    the latest buffered inertial sample (these are exactly the fixes for
    which the difference the code computes in double precision is more than
    0.5) is discarded with exactly one warning, which is never the report of
    an initialization and is "not synchronized" when the fix has quality 2
    and the buffer is full enough; the anchor, the initialized flag, the
    state and the buffer are unchanged and nothing is published or
    logged. *)
Theorem C7_desynchronised_fix_discarded (C : Collaborators) (now : Q)
    (gps_msg : NavSatFix) (n : FusionNode) (last_imu : ImuData) :
  initialized_ (kf_ptr_ n) = false ->
  back (imu_buf_ (kf_ptr_ n)) = Some last_imu ->
  apart_by_more_than_half_second gps_msg last_imu ->
  exists n' warning,
    gps_callback C now gps_msg n = Some n' /\
    console n' = console n ++ [warning] /\
    warning <> SystemInitialized /\
    (status gps_msg = 2%Z ->
     (kImuBufSize C <= List.length (imu_buf_ (kf_ptr_ n)))%nat ->
     warning = NotSynchronized) /\
    init_lla_ n' = init_lla_ n /\
    initialized_ (kf_ptr_ n') = false /\
    state_ptr_ (kf_ptr_ n') = state_ptr_ (kf_ptr_ n) /\
    imu_buf_ (kf_ptr_ n') = imu_buf_ (kf_ptr_ n) /\
    odom_pub_ n' = odom_pub_ n /\
    path_pub_ n' = path_pub_ n /\
    file_gps_ n' = file_gps_ n /\
    file_state_ n' = file_state_ n.
Proof.
  intros Hinit Hback Hapart.
  assert (Hdesync : desynchronised gps_msg last_imu)
    by (apply desynchronised_exact, Hapart).
  destruct (Z.eq_dec (status gps_msg) 2) as [Hs|Hs].
  - rewrite (accepted_uninitialized C now gps_msg n Hs Hinit). cbv zeta.
    destruct (List.length (imu_buf_ (kf_ptr_ n)) <? kImuBufSize C)%nat eqn:Hlen.
    + exists (print NotEnoughImuData n), NotEnoughImuData. cbn.
      apply Nat.ltb_lt in Hlen.
      repeat split; auto; try discriminate. intros _ Hle. lia.
    + rewrite Hback.
      apply (desynchronised_test gps_msg last_imu) in Hdesync. rewrite Hdesync.
      exists (print NotSynchronized (set_kf_ptr (set_last_imu_ptr last_imu (kf_ptr_ n)) n)),
        NotSynchronized.
      cbn. repeat split; auto; discriminate.
  - rewrite (rejected_status C now gps_msg n Hs).
    exists (print BadGpsMessage n), BadGpsMessage. cbn.
    repeat split; auto; try discriminate. intros Hs'. contradiction.
Qed.

Lemma C7_desynchronised_fix_discarded_witness :
  apart_by_more_than_half_second (fix_msg 2 11 1 2 3 unit_covariance) (imu_at 10) /\
  exists n',
    gps_callback (test_collaborators level_ok) 0
      (fix_msg 2 11 1 2 3 unit_covariance) node_waiting = Some n' /\
    console n' = [NotSynchronized] /\
    initialized_ (kf_ptr_ n') = false /\
    state_ptr_ (kf_ptr_ n') = state_at_origin Identity.
Proof.
  assert (Hd : apart_by_more_than_half_second
                 (fix_msg 2 11 1 2 3 unit_covariance) (imu_at 10))
    by (unfold apart_by_more_than_half_second; vm_compute; reflexivity).
  split; [exact Hd|].
  destruct (C7_desynchronised_fix_discarded (test_collaborators level_ok) 0
              (fix_msg 2 11 1 2 3 unit_covariance) node_waiting (imu_at 10)
              eq_refl eq_refl Hd)
    as (n' & w & Hcb & Hc & _ & Hw & _ & Hi & Hst & _).
  exists n'. rewrite (Hw eq_refl) in Hc by (cbn; lia).
  repeat split; assumption.
Defined.

(** C7, refuted as stated: the fix is stamped with the double nearest to
    0.501 s and the latest buffered sample with the double nearest to
    0.001 s.  The two timestamps differ by 0.5 + 2^-60 s, more than 0.5 s,
    but the double difference the code computes is 0.5 exactly: the fix is
    not discarded, the filter is initialized and the anchor is set from
    it. *)
Lemma C7_counterexample :
  let C := test_collaborators level_ok in
  let gps_msg := fix_msg 2 stamp_0_501 1 2 3 unit_covariance in
  let n := FusionNode_ctor kf_waiting_early (Vector3d 0 0 0) in
  initialized_ (kf_ptr_ n) = false /\
  back (imu_buf_ (kf_ptr_ n)) = Some (imu_at stamp_0_001) /\
  stamp gps_msg - stamp_0_001 == (1 # 2) + (1 # 1152921504606846976) /\
  (1 # 2) < Qabs (stamp gps_msg - imu_timestamp (imu_at stamp_0_001)) /\
  double_minus (stamp gps_msg) stamp_0_001 == 1 # 2 /\
  exists n',
    gps_callback C 0 gps_msg n = Some n' /\
    console n' = [SystemInitialized] /\
    initialized_ (kf_ptr_ n') = true /\
    init_lla_ n' = Vector3d 1 2 3.
Proof.
  cbv zeta.
  split; [reflexivity|]. split; [reflexivity|].
  split; [vm_compute; reflexivity|].
  split; [vm_compute; reflexivity|].
  split; [vm_compute; reflexivity|].
  eexists. split; [vm_compute; reflexivity|].
  split; [reflexivity|]. split; reflexivity.
Qed.

(* ================================================================= *)
(** ** The measurement model *)

(** C3: for an accepted fix on an initialized filter the callback applies the
    correction of lines 126-140 with the residual whose coefficients are the
    fix converted by [lla2enu] from the anchor, minus the state position
    plus the orientation applied to the lever arm. *)
Theorem C3_residual (C : Collaborators) (now : Q) (gps_msg : NavSatFix) (n : FusionNode) :
  status gps_msg = 2%Z ->
  initialized_ (kf_ptr_ n) = true ->
  let st := state_ptr_ (kf_ptr_ n) in
  let leverArm := I_p_Gps_ n in
  let fix_enu :=
    lla2enu C (init_lla_ n)
      (Vector3d (latitude gps_msg) (longitude gps_msg) (altitude gps_msg)) in
  let residual := residual_of C n (gps_data_of gps_msg) in
  gps_callback C now gps_msg n =
    Some (kalman_correct C now (gps_data_of gps_msg) residual
            (jacobian_of (r_GI st) leverArm) n) /\
  forall i, (i < 3)%nat ->
    residual i ==
      fix_enu i -
      (p_GI st i +
       (r_GI st i 0%nat * leverArm 0%nat + r_GI st i 1%nat * leverArm 1%nat +
        r_GI st i 2%nat * leverArm 2%nat)).
Proof.
  intros Hs Hi st leverArm fix_enu residual. split.
  - apply accepted_initialized; assumption.
  - intros i _. subst residual fix_enu st leverArm. unfold_eigen. cbn. ring.
Qed.

Lemma C3_residual_witness :
  let n := node_running Identity in
  let gps_msg := fix_msg 2 10 1 2 3 unit_covariance in
  let C := test_collaborators level_ok in
  gps_callback C 0 gps_msg n =
    Some (kalman_correct C 0 (gps_data_of gps_msg) (residual_of C n (gps_data_of gps_msg))
            (jacobian_of Identity (Vector3d 0 0 0)) n) /\
  residual_of C n (gps_data_of gps_msg) 1%nat == 2.
Proof.
  cbv zeta.
  destruct (C3_residual (test_collaborators level_ok) 0
              (fix_msg 2 10 1 2 3 unit_covariance) (node_running Identity)
              eq_refl eq_refl) as [Hcb Hres].
  split; [exact Hcb|].
  rewrite (Hres 1%nat) by lia. vm_compute. reflexivity.
Defined.

(** C4: for an accepted fix on an initialized filter the callback applies the
    correction with the 3x15 Jacobian that is the identity on columns 0-2,
    minus the orientation times the skew matrix of the lever arm on columns
    6-8, and zero on the other columns. *)
Theorem C4_jacobian (C : Collaborators) (now : Q) (gps_msg : NavSatFix) (n : FusionNode) :
  status gps_msg = 2%Z ->
  initialized_ (kf_ptr_ n) = true ->
  let st := state_ptr_ (kf_ptr_ n) in
  let H := jacobian_of (r_GI st) (I_p_Gps_ n) in
  gps_callback C now gps_msg n =
    Some (kalman_correct C now (gps_data_of gps_msg)
            (residual_of C n (gps_data_of gps_msg)) H n) /\
  forall i j, (i < 3)%nat -> (j < kStateDim)%nat ->
    H i j ==
      if (j <? 3)%nat then (if (i =? j)%nat then 1 else 0)
      else if (6 <=? j)%nat && (j <? 9)%nat
           then - mmul 3 (r_GI st) (skew_matrix (I_p_Gps_ n)) i (j - 6)%nat
           else 0.
Proof.
  intros Hs Hi st H. split.
  - apply accepted_initialized; assumption.
  - intros i j Hi3 Hj. apply jacobian_entries; assumption.
Qed.

Lemma C4_jacobian_witness :
  let n := node_running Identity in
  let H := jacobian_of Identity (Vector3d 0 0 0) in
  H 1%nat 1%nat == 1 /\ H 1%nat 4%nat == 0 /\
  H 1%nat 7%nat == - mmul 3 Identity (skew_matrix (Vector3d 0 0 0)) 1%nat 1%nat.
Proof.
  cbv zeta.
  destruct (C4_jacobian (test_collaborators level_ok) 0
              (fix_msg 2 10 1 2 3 unit_covariance) (node_running Identity)
              eq_refl eq_refl) as [_ HH].
  split; [|split].
  - apply (HH 1%nat 1%nat); unfold kStateDim; lia.
  - apply (HH 1%nat 4%nat); unfold kStateDim; lia.
  - apply (HH 1%nat 7%nat); unfold kStateDim; lia.
Defined.

(** C10: in every state the node can reach the lever arm is the zero vector
    it was constructed with, so that the predicted antenna position is the
    state position and the orientation-error block of the Jacobian (columns
    6-8) is zero. *)
Theorem C10_zero_lever_arm (C : Collaborators) (kf0 : KF) (lla0 : Vector) (n : FusionNode) :
  reachable C kf0 lla0 n ->
  let st := state_ptr_ (kf_ptr_ n) in
  I_p_Gps_ n = Vector3d 0 0 0 /\
  vec_eq 3 (predicted_position n) (p_GI st) /\
  mat_eq 3 3 (block 0 6 (jacobian_of (r_GI st) (I_p_Gps_ n))) Zero.
Proof.
  intros Hr st. pose proof (reachable_lever_arm _ _ _ _ Hr) as Hl.
  split; [exact Hl|]. subst st. split.
  - intros i _. unfold predicted_position, vadd, mulv. rewrite Hl. cbn. ring.
  - intros i j Hi Hj. rewrite Hl. unfold block, Zero.
    index_cases i; index_cases j; cbn; unfold mneg; ring.
Qed.

Lemma C10_zero_lever_arm_witness :
  let C := test_collaborators level_ok in
  let n := gps_update C 0 (gps_data_of (fix_msg 2 10 1 2 3 unit_covariance))
             (node_running Identity) in
  reachable C (kf_running Identity) (Vector3d 0 0 0) n /\
  I_p_Gps_ n = Vector3d 0 0 0 /\
  vec_eq 3 (predicted_position n) (p_GI (state_ptr_ (kf_ptr_ n))).
Proof.
  cbv zeta.
  assert (Hr : reachable (test_collaborators level_ok) (kf_running Identity) (Vector3d 0 0 0)
                 (gps_update (test_collaborators level_ok) 0
                    (gps_data_of (fix_msg 2 10 1 2 3 unit_covariance))
                    (node_running Identity))).
  { eapply reach_gps with (now := 0) (gps_msg := fix_msg 2 10 1 2 3 unit_covariance).
    - apply reach_ctor.
    - reflexivity. }
  split; [exact Hr|].
  destruct (C10_zero_lever_arm _ _ _ _ Hr) as (Hl & Hp & _).
  split; assumption.
Defined.

(* ================================================================= *)
(** ** Publication *)

(** C9: the odometry message published by an accepted fix on an initialized
    filter carries a 36-element pose covariance which, read as a row-major
    6x6 matrix, has the blocks (0,0), (0,6), (6,0) and (6,6) of the updated
    15x15 error covariance as its four 3x3 blocks. *)
Theorem C9_pose_covariance (C : Collaborators) (now : Q) (gps_msg : NavSatFix) (n : FusionNode) :
  status gps_msg = 2%Z ->
  initialized_ (kf_ptr_ n) = true ->
  exists n' odom_msg,
    gps_callback C now gps_msg n = Some n' /\
    odom_pub_ n' = odom_pub_ n ++ [odom_msg] /\
    let P := cov (state_ptr_ (kf_ptr_ n')) in
    let covariance := pose_covariance odom_msg in
    List.length covariance = 36%nat /\
    (forall k, (k < 36)%nat ->
       nth k covariance 0 = P (pose_index (k / 6)) (pose_index (k mod 6))) /\
    (forall i j, (i < 3)%nat -> (j < 3)%nat ->
       nth (6 * i + j) covariance 0 = P i j /\
       nth (6 * i + (3 + j)) covariance 0 = P i (6 + j)%nat /\
       nth (6 * (3 + i) + j) covariance 0 = P (6 + i)%nat j /\
       nth (6 * (3 + i) + (3 + j)) covariance 0 = P (6 + i)%nat (6 + j)%nat).
Proof.
  intros Hs Hi. rewrite (accepted_initialized C now gps_msg n Hs Hi).
  unfold gps_update, kalman_correct.
  destruct (update_K C _ _ _) as [K kf1].
  eexists. eexists. split; [reflexivity|]. split; [reflexivity|].
  cbn -[pose_covariance_of nth Nat.div Nat.modulo Nat.mul Nat.add]. split; [reflexivity|]. split.
  - intros k Hk. apply pose_covariance_row_major, Hk.
  - intros i j Hi3 Hj3. apply pose_covariance_blocks; assumption.
Qed.

Lemma C9_pose_covariance_witness :
  exists n' odom_msg,
    gps_callback (test_collaborators level_ok) 0 (fix_msg 2 10 1 2 3 unit_covariance)
      (node_running Identity) = Some n' /\
    odom_pub_ n' = [odom_msg] /\
    nth 21 (pose_covariance odom_msg) 0 = cov (state_ptr_ (kf_ptr_ n')) 6%nat 6%nat.
Proof.
  destruct (C9_pose_covariance (test_collaborators level_ok) 0
              (fix_msg 2 10 1 2 3 unit_covariance) (node_running Identity)
              eq_refl eq_refl) as (n' & odom_msg & Hcb & Hpub & _ & Hk & _).
  exists n', odom_msg. repeat split; [exact Hcb | exact Hpub |].
  apply (Hk 21%nat). lia.
Defined.

(* ================================================================= *)
(** ** The callback, case by case *)

(** The filter the levelling is called on (lines 93 and 99). *)
Lemma gps_callback_cases (C : Collaborators) (now : Q) (gps_msg : NavSatFix)
    (n n' : FusionNode) :
  gps_callback C now gps_msg n = Some n' ->
  let kf := kf_ptr_ n in
  (status gps_msg <> 2%Z /\ n' = print BadGpsMessage n) \/
  (status gps_msg = 2%Z /\ initialized_ kf = true /\
   n' = gps_update C now (gps_data_of gps_msg) n) \/
  (status gps_msg = 2%Z /\ initialized_ kf = false /\
   (List.length (imu_buf_ kf) < kImuBufSize C)%nat /\
   n' = print NotEnoughImuData n) \/
  (exists last_imu,
     status gps_msg = 2%Z /\ initialized_ kf = false /\
     (kImuBufSize C <= List.length (imu_buf_ kf))%nat /\
     back (imu_buf_ kf) = Some last_imu /\
     desynchronised gps_msg last_imu /\
     n' = print NotSynchronized (set_kf_ptr (set_last_imu_ptr last_imu kf) n)) \/
  (exists last_imu ok kf3,
     status gps_msg = 2%Z /\ initialized_ kf = false /\
     (kImuBufSize C <= List.length (imu_buf_ kf))%nat /\
     back (imu_buf_ kf) = Some last_imu /\
     ~ desynchronised gps_msg last_imu /\
     init_rot_from_imudata C
       (set_state_ptr (set_timestamp (imu_timestamp last_imu) (state_ptr_ kf))
          (set_last_imu_ptr last_imu kf)) = (ok, kf3) /\
     n' = if ok
          then print SystemInitialized
                 (set_init_lla (lla (gps_data_of gps_msg)) (set_kf_ptr kf3 n))
          else set_kf_ptr kf3 n).
Proof.
  intros Hcb kf. subst kf.
  destruct (Z.eq_dec (status gps_msg) 2) as [Hs|Hs].
  2:{ left. rewrite (rejected_status C now gps_msg n Hs) in Hcb.
      injection Hcb as <-. auto. }
  right. destruct (initialized_ (kf_ptr_ n)) eqn:Hi.
  { left. rewrite (accepted_initialized C now gps_msg n Hs Hi) in Hcb.
    injection Hcb as <-. auto. }
  right. rewrite (accepted_uninitialized C now gps_msg n Hs Hi) in Hcb. cbv zeta in Hcb.
  destruct (List.length (imu_buf_ (kf_ptr_ n)) <? kImuBufSize C)%nat eqn:Hlen.
  { left. apply Nat.ltb_lt in Hlen. injection Hcb as <-. auto. }
  right. apply Nat.ltb_ge in Hlen.
  destruct (back (imu_buf_ (kf_ptr_ n))) as [last_imu|] eqn:Hback; [|discriminate].
  destruct (negb (Qle_bool (Qabs (double_minus (stamp gps_msg) (imu_timestamp last_imu)))
                    (1 # 2)))
    eqn:Htest.
  { left. exists last_imu. injection Hcb as <-.
    repeat split; auto. apply desynchronised_test, Htest. }
  right. exists last_imu.
  change (state_ptr_ (set_last_imu_ptr last_imu (kf_ptr_ n)))
    with (state_ptr_ (kf_ptr_ n)) in Hcb.
  destruct (init_rot_from_imudata C _) as [ok kf3] eqn:Hlevel.
  exists ok, kf3.
  assert (Hsync : ~ desynchronised gps_msg last_imu).
  { intros Hd. apply desynchronised_test in Hd. congruence. }
  destruct ok; cbn in Hcb; injection Hcb as <-; repeat split; auto.
Qed.

Lemma back_none (buf : list ImuData) : back buf = None <-> buf = [].
Proof.
  unfold back. split.
  - intros H. apply nth_error_None in H. destruct buf; [reflexivity|cbn in H; lia].
  - intros ->. reflexivity.
Qed.

(** What an update appends to the outputs, in terms of the state it leaves. *)
Lemma gps_update_outputs (C : Collaborators) (now : Q) (gps : GpsData) (n : FusionNode) :
  let n' := gps_update C now gps n in
  let st' := state_ptr_ (kf_ptr_ n') in
  let header := mkHeader "global" now in
  let pose := poseEigenToMsg C (r_GI st') (p_GI st') in
  odom_pub_ n' =
    odom_pub_ n ++ [mkOdometry header pose (pose_covariance_of (cov st')) (v_GI st')] /\
  nav_path_ n' = mkPath header (poses (nav_path_ n) ++ [mkPoseStamped header pose]) /\
  path_pub_ n' = path_pub_ n ++ [nav_path_ n'] /\
  file_state_ n' =
    file_state_ n ++
      [mkStateRow (timestamp st') (triple (p_GI st')) (Quaterniond C (r_GI st'))
         (triple (enu2lla C (init_lla_ n) (p_GI st')))] /\
  file_gps_ n' = file_gps_ n ++ [mkGpsRow (gps_timestamp gps) (triple (lla gps))] /\
  init_lla_ n' = init_lla_ n /\
  console n' = console n.
Proof.
  unfold gps_update, kalman_correct.
  destruct (update_K C _ _ _) as [K kf1].
  cbv zeta. unfold publish_save_state, write_file_gps, set_kf_ptr, set_state_ptr.
  cbn -[pose_covariance_of]. repeat split.
Qed.

Lemma console_not_extended (l : list Console) (m : Console) : l <> l ++ [m].
Proof.
  intros H. apply (f_equal (@List.length Console)) in H.
  rewrite length_app in H. cbn in H. lia.
Qed.

Lemma console_last_inj (l : list Console) (a b : Console) :
  l ++ [a] = l ++ [b] -> a = b.
Proof. intros H. apply app_inv_head in H. congruence. Qed.

(* ================================================================= *)
(** ** Initialization *)

Lemma test_collaborators_contract (level : KF -> bool * KF) :
  (forall kf kf', level kf = (false, kf') ->
     initialized_ kf' = initialized_ kf /\ state_ptr_ kf' = state_ptr_ kf) ->
  (forall kf kf', level kf = (true, kf') -> initialized_ kf' = true) ->
  initialization_contract (test_collaborators level).
Proof.
  intros Hfail Hok. unfold initialization_contract, test_collaborators. cbn.
  repeat split; auto.
  - apply (Hfail kf kf' H).
  - apply (Hfail kf kf' H).
Qed.

Lemma level_ok_contract : initialization_contract (test_collaborators level_ok).
Proof.
  apply test_collaborators_contract; unfold level_ok.
  - intros kf kf' H. discriminate H.
  - intros kf kf' [= <-]. reflexivity.
Qed.

Lemma level_fails_contract : initialization_contract (test_collaborators level_fails).
Proof.
  apply test_collaborators_contract; unfold level_fails.
  - intros kf kf' [= <-]. auto.
  - intros kf kf' H. discriminate H.
Qed.

(** The flag across the correction of lines 126-140. *)
Lemma kalman_correct_flag (C : Collaborators) (now : Q) (gps : GpsData)
    (residual : Vector) (H : Matrix) (n : FusionNode) :
  initialization_contract C ->
  initialized_ (kf_ptr_ (kalman_correct C now gps residual H n)) =
  initialized_ (kf_ptr_ n).
Proof.
  intros (_ & _ & HK & HP). unfold kalman_correct.
  pose proof (HK (kf_ptr_ n) H (gps_cov gps)) as HK'.
  destruct (update_K C (kf_ptr_ n) H (gps_cov gps)) as [K kf1]. cbn in HK'.
  cbn. rewrite HP. exact HK'.
Qed.

(** One callback, as far as the initialization is concerned: either nothing
    is initialized (no report, flag and anchor as before), or an
    uninitialized filter becomes initialized, with one report and the anchor
    of the fix. *)
Lemma gps_callback_initialization (C : Collaborators) (now : Q) (gps_msg : NavSatFix)
    (n n' : FusionNode) :
  initialization_contract C ->
  gps_callback C now gps_msg n = Some n' ->
  exists out,
    console n' = console n ++ out /\
    ((initializations out = 0%nat /\
      initialized_ (kf_ptr_ n') = initialized_ (kf_ptr_ n) /\
      init_lla_ n' = init_lla_ n) \/
     (out = [SystemInitialized] /\
      initialized_ (kf_ptr_ n) = false /\
      initialized_ (kf_ptr_ n') = true /\
      init_lla_ n' =
        Vector3d (latitude gps_msg) (longitude gps_msg) (altitude gps_msg))).
Proof.
  intros HC Hcb.
  destruct (gps_callback_cases C now gps_msg n n' Hcb)
    as [(Hs & ->)|[(Hs & Hi & ->)|[(Hs & Hi & _ & ->)|[(l & Hs & Hi & _ & _ & _ & ->)
       |(l & ok & kf3 & Hs & Hi & _ & _ & _ & Hlevel & ->)]]]].
  - exists [BadGpsMessage]. split; [reflexivity|]. left. cbn. auto.
  - exists []. unfold gps_update.
    destruct (kalman_correct_frame C now (gps_data_of gps_msg)
                (residual_of C n (gps_data_of gps_msg))
                (jacobian_of (r_GI (state_ptr_ (kf_ptr_ n))) (I_p_Gps_ n)) n)
      as (Ha & _ & Hc).
    split; [rewrite app_nil_r; exact Hc|]. left.
    split; [reflexivity|]. split; [|exact Ha].
    apply kalman_correct_flag, HC.
  - exists [NotEnoughImuData]. split; [reflexivity|]. left. cbn. auto.
  - exists [NotSynchronized]. split; [reflexivity|]. left. cbn. auto.
  - destruct HC as (Hfail & Hok & _ & _). destruct ok.
    + exists [SystemInitialized]. split; [reflexivity|]. right. cbn.
      repeat split; auto. apply (Hok _ _ Hlevel).
    + exists []. split; [cbn; rewrite app_nil_r; reflexivity|]. left. cbn.
      destruct (Hfail _ _ Hlevel) as [Hflag _]. rewrite Hflag. cbn. auto.
Qed.

Lemma initializations_app (a b : list Console) :
  initializations (a ++ b) = (initializations a + initializations b)%nat.
Proof. unfold initializations. rewrite filter_app, length_app. reflexivity. Qed.

(** A run of the two subscriptions reports at most one initialization, and
    none once the filter is initialized, which then stays so with its
    anchor. *)
Lemma spin_initializations (C : Collaborators) (events : list Event) :
  initialization_contract C ->
  Forall keeps_flag events ->
  forall n n',
    spin C events n = Some n' ->
    exists out,
      console n' = console n ++ out /\
      (initializations out <= if initialized_ (kf_ptr_ n) then 0 else 1)%nat /\
      (initialized_ (kf_ptr_ n) = true ->
       initialized_ (kf_ptr_ n') = true /\ init_lla_ n' = init_lla_ n).
Proof.
  intros HC Hall. induction Hall as [|e rest He _ IH]; intros n n' Hrun.
  - cbn in Hrun. injection Hrun as <-. exists []. rewrite app_nil_r.
    split; [reflexivity|]. split; [destruct (initialized_ _); cbn; lia|auto].
  - destruct e as [now gps_msg|f]; cbn [spin] in Hrun.
    + destruct (gps_callback C now gps_msg n) as [n1|] eqn:Hcb; [|discriminate].
      destruct (gps_callback_initialization C now gps_msg n n1 HC Hcb)
        as (out1 & Hc1 & Hstep).
      destruct (IH n1 n' Hrun) as (out & Hc & Hcount & Hkeep).
      exists (out1 ++ out). rewrite Hc, Hc1, app_assoc, initializations_app.
      split; [reflexivity|].
      destruct Hstep as [(H0 & Hflag & Ha)|(-> & Hi & Hi1 & Ha)].
      * rewrite H0, Hflag in *. split; [exact Hcount|].
        intros Hi. destruct (Hkeep Hi) as [Hi' Ha']. split; [exact Hi'|congruence].
      * rewrite Hi, Hi1 in *. cbn. split; [lia|]. intros H. discriminate H.
    + cbn in He.
      destruct (IH (set_kf_ptr (f (kf_ptr_ n)) n) n' Hrun) as (out & Hc & Hcount & Hkeep).
      cbn in Hc, Hcount, Hkeep. rewrite He in Hcount, Hkeep.
      exists out. auto.
Qed.




(* ================================================================= *)
(** ** Algebra of 3x3 matrices *)

Lemma mat_eq_refl n m A : mat_eq n m A A.
Proof. intros i j _ _. reflexivity. Qed.

Lemma mat_eq_sym n m A B : mat_eq n m A B -> mat_eq n m B A.
Proof. intros H i j Hi Hj. symmetry. apply H; assumption. Qed.

Lemma mat_eq_trans n m A B D : mat_eq n m A B -> mat_eq n m B D -> mat_eq n m A D.
Proof. intros H1 H2 i j Hi Hj. rewrite (H1 i j Hi Hj). apply H2; assumption. Qed.

(** A sum depends only on the terms below its bound. *)
Lemma sum_upto_ext n f g :
  (forall k, (k < n)%nat -> f k == g k) -> sum_upto n f == sum_upto n g.
Proof.
  induction n as [|n IH]; intros H; cbn.
  - reflexivity.
  - rewrite IH by (intros k Hk; apply H; lia). rewrite (H n) by lia. reflexivity.
Qed.

Lemma mulv_ext n A B u v i :
  (forall k, (k < n)%nat -> A i k == B i k) -> vec_eq n u v ->
  mulv n A u i == mulv n B v i.
Proof.
  intros HA Hv. unfold mulv. apply sum_upto_ext. intros k Hk.
  rewrite (HA k Hk), (Hv k Hk). reflexivity.
Qed.

Lemma dot_ext u u' v v' : vec_eq 3 u u' -> vec_eq 3 v v' -> dot u v == dot u' v'.
Proof.
  intros Hu Hv. unfold dot. apply sum_upto_ext. intros k Hk.
  rewrite (Hu k Hk), (Hv k Hk). reflexivity.
Qed.

Lemma quad_form_ext A B u v :
  mat_eq 3 3 A B -> vec_eq 3 u v -> quad_form A u == quad_form B v.
Proof.
  intros HA Hv. unfold quad_form. apply dot_ext; [exact Hv|].
  intros i Hi. apply mulv_ext; [|exact Hv]. intros k Hk. apply HA; assumption.
Qed.

(** [(A * B) * v = A * (B * v)] *)
Lemma mulv_mmul A B v i : mulv 3 (mmul 3 A B) v i == mulv 3 A (mulv 3 B v) i.
Proof. unfold mulv, mmul. cbn. ring. Qed.

(* ================================================================= *)
(** ** The correction of the state *)

(** What the callback leaves in the filter when the collaborators are the
    filter of the specification. *)
Lemma spec_update_state (Exp : Vector -> Matrix) (C : Collaborators) (now : Q)
    (gps : GpsData) (residual : Vector) (H : Matrix) (n : FusionNode) :
  let K := fst (update_K_spec (kf_ptr_ n) H (gps_cov gps)) in
  let n' := kalman_correct (spec_filter Exp C) now gps residual H n in
  state_ptr_ (kf_ptr_ n') =
    State_plus_spec Exp
      (set_cov (mmul kStateDim (msub Identity (mmul 3 K H)) (cov (state_ptr_ (kf_ptr_ n))))
         (state_ptr_ (kf_ptr_ n)))
      (mulv 3 K residual) /\
  init_lla_ n' = init_lla_ n /\
  I_p_Gps_ n' = I_p_Gps_ n.
Proof. cbn. repeat split. Qed.

(* ================================================================= *)
(** ** Inverse and positive definiteness of 3x3 matrices *)

(** [M * (M^-1 * v) = v] when the determinant is not zero. *)
Lemma mulv_inverse M v i :
  ~ determinant M == 0 -> (i < 3)%nat ->
  mulv 3 M (mulv 3 (inverse M) v) i == v i.
Proof.
  intros Hdet Hi. unfold mulv, inverse, cofactor.
  index_cases i; cbn; unfold determinant in *; field; exact Hdet.
Qed.

(** [M^-1 * (M * v) = v] when the determinant is not zero. *)
Lemma inverse_mulv M v i :
  ~ determinant M == 0 -> (i < 3)%nat ->
  mulv 3 (inverse M) (mulv 3 M v) i == v i.
Proof.
  intros Hdet Hi. unfold mulv, inverse, cofactor.
  index_cases i; cbn; unfold determinant in *; field; exact Hdet.
Qed.

(** The first two steps of Sylvester's criterion, read off the quadratic
    form at the vectors [(1, 0, 0)] and [(A01, -A00, 0)]. *)
Lemma pos_def_minors A :
  pos_def3 A ->
  0 < A 0%nat 0%nat /\
  0 < A 0%nat 0%nat * A 1%nat 1%nat - A 0%nat 1%nat * A 1%nat 0%nat.
Proof.
  intros Hpd.
  assert (H0 : 0 < A 0%nat 0%nat).
  { assert (H := Hpd (Vector3d 1 0 0)).
    unfold quad_form, dot, mulv in H. cbn in H.
    assert (Hnz : ~ vec_eq 3 (Vector3d 1 0 0) (Vector3d 0 0 0)).
    { intros E. specialize (E 0%nat ltac:(lia)). cbn in E. discriminate. }
    specialize (H Hnz). lra. }
  split; [exact H0|].
  assert (H := Hpd (Vector3d (A 0%nat 1%nat) (- A 0%nat 0%nat) 0)).
  unfold quad_form, dot, mulv in H. cbn in H.
  assert (Hnz : ~ vec_eq 3 (Vector3d (A 0%nat 1%nat) (- A 0%nat 0%nat) 0) (Vector3d 0 0 0)).
  { intros E. specialize (E 1%nat ltac:(lia)). cbn in E. lra. }
  specialize (H Hnz).
  set (a := A 0%nat 0%nat) in *. set (b := A 0%nat 1%nat) in *.
  set (c := A 1%nat 0%nat) in *. set (d := A 1%nat 1%nat) in *.
  assert (E : 0 + b * (0 + a * b + b * - a + A 0%nat 2%nat * 0) +
              - a * (0 + c * b + d * - a + A 1%nat 2%nat * 0) +
              0 * (0 + A 2%nat 0%nat * b + A 2%nat 1%nat * - a + A 2%nat 2%nat * 0)
              == a * (a * d - b * c)) by ring.
  rewrite E in H. nra.
Qed.

(** The last step: the quadratic form at the third column of the adjugate
    is the second minor times the determinant. *)
Lemma pos_def_determinant A : pos_def3 A -> 0 < determinant A.
Proof.
  intros Hpd. destruct (pos_def_minors A Hpd) as [H0 H1].
  set (v := Vector3d (cofactor A 2 0) (cofactor A 2 1) (cofactor A 2 2)).
  assert (Hnz : ~ vec_eq 3 v (Vector3d 0 0 0)).
  { intros E. specialize (E 2%nat ltac:(lia)). unfold v, cofactor in E. cbn in E. lra. }
  assert (H := Hpd v Hnz).
  assert (E : quad_form A v ==
              (A 0%nat 0%nat * A 1%nat 1%nat - A 0%nat 1%nat * A 1%nat 0%nat) * determinant A).
  { unfold quad_form, dot, mulv, v, cofactor, determinant. cbn. ring. }
  rewrite E in H. nra.
Qed.

Lemma pos_def_invertible A : pos_def3 A -> ~ determinant A == 0.
Proof. intros Hpd E. pose proof (pos_def_determinant A Hpd). lra. Qed.

Lemma vec_eq_zero_dec v :
  vec_eq 3 v (Vector3d 0 0 0) \/ ~ vec_eq 3 v (Vector3d 0 0 0).
Proof.
  destruct (Qeq_dec (v 0%nat) 0) as [E0|N0];
    [|right; intros E; apply N0, (E 0%nat); lia].
  destruct (Qeq_dec (v 1%nat) 0) as [E1|N1];
    [|right; intros E; apply N1, (E 1%nat); lia].
  destruct (Qeq_dec (v 2%nat) 0) as [E2|N2];
    [|right; intros E; apply N2, (E 2%nat); lia].
  left. intros i Hi. index_cases i; assumption.
Qed.

Lemma quad_form_zero A v : vec_eq 3 v (Vector3d 0 0 0) -> quad_form A v == 0.
Proof.
  intros E. rewrite (quad_form_ext A A v (Vector3d 0 0 0) (mat_eq_refl 3 3 A) E).
  unfold quad_form, dot, mulv. cbn. ring.
Qed.

Lemma pos_def_semidef A : pos_def3 A -> pos_semidef3 A.
Proof.
  intros Hpd v. destruct (vec_eq_zero_dec v) as [E|N].
  - rewrite (quad_form_zero A v E). lra.
  - apply Qlt_le_weak, Hpd, N.
Qed.

(** The weighted norm is the quadratic form of [R] at [R^-1 v]. *)
Lemma weighted_sqnorm_quad R v :
  ~ determinant R == 0 ->
  weighted_sqnorm R v == quad_form R (mulv 3 (inverse R) v).
Proof.
  intros Hdet. unfold weighted_sqnorm, quad_form.
  set (w := mulv 3 (inverse R) v).
  transitivity (dot (mulv 3 R w) w).
  - apply dot_ext; [|intros i _; reflexivity].
    intros i Hi. symmetry. apply mulv_inverse; assumption.
  - unfold dot. cbn. ring.
Qed.

Lemma weighted_sqnorm_nonneg R v :
  pos_def3 R -> 0 <= weighted_sqnorm R v.
Proof.
  intros Hpd.
  rewrite (weighted_sqnorm_quad R v (pos_def_invertible R Hpd)).
  apply pos_def_semidef, Hpd.
Qed.

Lemma weighted_sqnorm_pos R v :
  pos_def3 R -> ~ vec_eq 3 v (Vector3d 0 0 0) ->
  0 < weighted_sqnorm R v.
Proof.
  intros Hpd Hnz.
  rewrite (weighted_sqnorm_quad R v (pos_def_invertible R Hpd)).
  apply Hpd. intros E. apply Hnz. intros i Hi.
  rewrite <- (mulv_inverse R v i (pos_def_invertible R Hpd) Hi).
  rewrite (mulv_ext 3 R R _ (Vector3d 0 0 0) i (fun k _ => Qeq_refl _) E).
  unfold mulv. index_cases i; cbn; ring.
Qed.

Lemma weighted_sqnorm_ext R u v :
  vec_eq 3 u v -> weighted_sqnorm R u == weighted_sqnorm R v.
Proof. intros E. apply quad_form_ext; [apply mat_eq_refl|exact E]. Qed.

(** [|u + R y|^2] in the weighted norm, for a symmetric [R]. *)
Lemma weighted_sqnorm_shift R u y :
  symmetric3 R -> ~ determinant R == 0 ->
  weighted_sqnorm R (vadd u (mulv 3 R y)) ==
  weighted_sqnorm R u + 2 * dot y u + quad_form R y.
Proof.
  intros Hsym Hdet.
  pose proof (Hsym 1%nat 0%nat ltac:(lia) ltac:(lia)) as E10.
  pose proof (Hsym 2%nat 0%nat ltac:(lia) ltac:(lia)) as E20.
  pose proof (Hsym 2%nat 1%nat ltac:(lia) ltac:(lia)) as E21.
  unfold weighted_sqnorm, quad_form, dot, mulv, vadd, inverse, cofactor, determinant in *.
  cbn in *. rewrite E10, E20, E21 in *. field. exact Hdet.
Qed.

(** The weighted norm of [R y] is the quadratic form of [R] at [y]. *)
Lemma weighted_sqnorm_image R y :
  symmetric3 R -> ~ determinant R == 0 ->
  weighted_sqnorm R (mulv 3 R y) == quad_form R y.
Proof.
  intros Hsym Hdet.
  pose proof (Hsym 1%nat 0%nat ltac:(lia) ltac:(lia)) as E10.
  pose proof (Hsym 2%nat 0%nat ltac:(lia) ltac:(lia)) as E20.
  pose proof (Hsym 2%nat 1%nat ltac:(lia) ltac:(lia)) as E21.
  unfold weighted_sqnorm, quad_form, dot, mulv, inverse, cofactor, determinant in *.
  cbn in *. rewrite E10, E20, E21 in *. field. exact Hdet.
Qed.

(** If a residual is [dp + R y] with [dp = A y], and the corrected residual
    is [R y], the weighted norm drops by the weighted norm of [dp] plus twice
    the quadratic form of [A] at [y]. *)
Lemma weighted_gap_of_split R A res res' dp y :
  symmetric3 R -> ~ determinant R == 0 ->
  vec_eq 3 res (vadd dp (mulv 3 R y)) ->
  vec_eq 3 res' (mulv 3 R y) ->
  vec_eq 3 dp (mulv 3 A y) ->
  weighted_sqnorm R res - weighted_sqnorm R res' ==
  weighted_sqnorm R dp + 2 * quad_form A y.
Proof.
  intros Hsym Hdet Hres Hres' Hdp.
  rewrite (weighted_sqnorm_ext R res _ Hres).
  rewrite (weighted_sqnorm_ext R res' _ Hres').
  rewrite (weighted_sqnorm_shift R dp y Hsym Hdet).
  rewrite (weighted_sqnorm_image R y Hsym Hdet).
  assert (E : dot y dp == quad_form A y).
  { unfold quad_form. apply dot_ext; [intros i _; reflexivity|exact Hdp]. }
  rewrite E. ring.
Qed.

(** For an isotropic covariance [sigma2 * I] the weighted norm is the
    Euclidean one divided by [sigma2]. *)
Lemma isotropic_norm R sigma2 v :
  0 < sigma2 ->
  mat_eq 3 3 R (fun i j => sigma2 * Identity i j) ->
  weighted_sqnorm R v == squaredNorm v / sigma2.
Proof.
  intros Hs HR.
  pose proof (HR 0%nat 0%nat ltac:(lia) ltac:(lia)) as E00.
  pose proof (HR 0%nat 1%nat ltac:(lia) ltac:(lia)) as E01.
  pose proof (HR 0%nat 2%nat ltac:(lia) ltac:(lia)) as E02.
  pose proof (HR 1%nat 0%nat ltac:(lia) ltac:(lia)) as E10.
  pose proof (HR 1%nat 1%nat ltac:(lia) ltac:(lia)) as E11.
  pose proof (HR 1%nat 2%nat ltac:(lia) ltac:(lia)) as E12.
  pose proof (HR 2%nat 0%nat ltac:(lia) ltac:(lia)) as E20.
  pose proof (HR 2%nat 1%nat ltac:(lia) ltac:(lia)) as E21.
  pose proof (HR 2%nat 2%nat ltac:(lia) ltac:(lia)) as E22.
  unfold Identity in *. cbn in E00, E01, E02, E10, E11, E12, E20, E21, E22.
  unfold weighted_sqnorm, quad_form, dot, mulv, inverse, cofactor, determinant, squaredNorm.
  cbn. rewrite E00, E01, E02, E10, E11, E12, E20, E21, E22. field. lra.
Qed.

(* ================================================================= *)
(** ** The residual across an update of the specification's filter *)

Section ResidualAcrossUpdate.

Variable Exp : Vector -> Matrix.
Variable C : Collaborators.
Variable now : Q.
Variable gps_msg : NavSatFix.
Variable n : FusionNode.

Let st := state_ptr_ (kf_ptr_ n).
Let gps := gps_data_of gps_msg.
Let R := gps_cov gps.
Let P := cov st.
Let H := jacobian_of (r_GI st) (I_p_Gps_ n).
(** the innovation covariance *)
Let S := madd (mmul kStateDim (mmul kStateDim H P) (transpose H)) R.
Let K := fst (update_K_spec (kf_ptr_ n) H R).
Let residual := residual_of C n gps.
Let y := mulv 3 (inverse S) residual.
Let n' := gps_update (spec_filter Exp C) now gps n.
Let residual' := residual_of C n' gps.
(** the correction of the position *)
Let delta_p := vsub (p_GI (state_ptr_ (kf_ptr_ n'))) (p_GI st).

Hypothesis lever_arm_zero : I_p_Gps_ n = Vector3d 0 0 0.

(** With a zero lever arm [H] selects the position rows and columns. *)
Lemma jacobian_rows A i j : (i < 3)%nat -> mmul kStateDim H A i j == A i j.
Proof.
  intros Hi. unfold H, mmul, kStateDim. rewrite lever_arm_zero.
  index_cases i; cbn; unfold mneg, Zero; ring.
Qed.

Lemma jacobian_columns A i j :
  (j < 3)%nat -> mmul kStateDim A (transpose H) i j == A i j.
Proof.
  intros Hj. unfold H, mmul, transpose, kStateDim. rewrite lever_arm_zero.
  index_cases j; cbn; unfold mneg, Zero; ring.
Qed.

Lemma innovation_covariance : mat_eq 3 3 S (madd (block 0 0 P) R).
Proof.
  intros i j Hi Hj. unfold S, madd, block. cbn [Nat.add].
  rewrite (jacobian_columns (mmul kStateDim H P) i j Hj).
  rewrite (jacobian_rows P i j Hi). reflexivity.
Qed.

Lemma gain_numerator i j : (j < 3)%nat -> mmul kStateDim P (transpose H) i j == P i j.
Proof. apply jacobian_columns. Qed.

(** [K * residual = P_(.,p) * S^-1 * residual] *)
Lemma correction_rows i : mulv 3 K residual i == mulv 3 P y i.
Proof.
  unfold K, update_K_spec, fst. fold st P S.
  rewrite mulv_mmul. fold y.
  apply mulv_ext; [|intros k _; reflexivity].
  intros k Hk. apply gain_numerator, Hk.
Qed.

Lemma position_correction i : delta_p i == mulv 3 P y i.
Proof.
  unfold delta_p, n', gps_update.
  destruct (spec_update_state Exp C now gps
              (residual_of (spec_filter Exp C) n gps)
              (jacobian_of (r_GI (state_ptr_ (kf_ptr_ n))) (I_p_Gps_ n)) n)
    as (Hst & _ & _).
  rewrite Hst. cbn [p_GI State_plus_spec set_cov]. unfold vsub, vadd, segment.
  cbn [Nat.add]. fold st gps H R K.
  change (residual_of (spec_filter Exp C) n gps) with residual.
  rewrite correction_rows. fold st. ring.
Qed.

Lemma residual_after i : residual' i == residual i - delta_p i.
Proof.
  unfold residual', residual, delta_p, residual_of, predicted_position, n', gps_update.
  destruct (spec_update_state Exp C now gps
              (residual_of (spec_filter Exp C) n gps)
              (jacobian_of (r_GI (state_ptr_ (kf_ptr_ n))) (I_p_Gps_ n)) n)
    as (Hst & Ha & Hl).
  rewrite Hst, Ha, Hl, lever_arm_zero.
  match goal with
  | |- context [State_plus_spec Exp _ ?d] => generalize d; intros delta_x
  end.
  cbn [p_GI r_GI State_plus_spec set_cov].
  generalize (Exp (segment 6 delta_x)); intros E.
  unfold vsub, vadd, mulv, mmul, segment. cbn. fold st. ring.
Qed.

Hypothesis R_symmetric : symmetric3 R.
Hypothesis R_pos_def : pos_def3 R.
Hypothesis P_pos_semidef : pos_semidef3 (block 0 0 P).

Lemma innovation_pos_def : pos_def3 S.
Proof.
  intros v Hv.
  rewrite (quad_form_ext S (madd (block 0 0 P) R) v v innovation_covariance)
    by (intros i _; reflexivity).
  assert (E : quad_form (madd (block 0 0 P) R) v ==
              quad_form (block 0 0 P) v + quad_form R v).
  { unfold quad_form, dot, mulv, madd. cbn. ring. }
  rewrite E. pose proof (P_pos_semidef v). pose proof (R_pos_def v Hv). lra.
Qed.

(** The residual is [P_pp y + R y], the corrected one is [R y]. *)
Lemma residual_split : vec_eq 3 residual (vadd delta_p (mulv 3 R y)).
Proof.
  intros i Hi.
  rewrite <- (mulv_inverse S residual i (pos_def_invertible S innovation_pos_def) Hi).
  fold y. unfold vadd. rewrite position_correction.
  rewrite (mulv_ext 3 S (madd (block 0 0 P) R) y y i
             (fun k Hk => innovation_covariance i k Hi Hk) (fun k _ => Qeq_refl _)).
  unfold mulv, madd, block. cbn. ring.
Qed.

Lemma residual_after_split : vec_eq 3 residual' (mulv 3 R y).
Proof.
  intros i Hi. rewrite residual_after, (residual_split i Hi). unfold vadd. ring.
Qed.

Lemma weighted_gap :
  weighted_sqnorm R residual - weighted_sqnorm R residual' ==
  weighted_sqnorm R delta_p + 2 * quad_form (block 0 0 P) y.
Proof.
  apply (weighted_gap_of_split R (block 0 0 P) residual residual' delta_p y
           R_symmetric (pos_def_invertible R R_pos_def)
           residual_split residual_after_split).
  intros i Hi. rewrite position_correction. unfold mulv, block. cbn. ring.
Qed.

Lemma weighted_nonincreasing :
  weighted_sqnorm R residual' <= weighted_sqnorm R residual.
Proof.
  pose proof weighted_gap as G.
  pose proof (weighted_sqnorm_nonneg R delta_p R_pos_def).
  pose proof (P_pos_semidef y). lra.
Qed.

Lemma weighted_decreasing :
  ~ vec_eq 3 delta_p (Vector3d 0 0 0) ->
  weighted_sqnorm R residual' < weighted_sqnorm R residual.
Proof.
  intros Hnz. pose proof weighted_gap as G.
  pose proof (weighted_sqnorm_pos R delta_p R_pos_def Hnz).
  pose proof (P_pos_semidef y). lra.
Qed.

Lemma isotropic_weighted_sqnorm sigma2 v :
  0 < sigma2 ->
  mat_eq 3 3 R (fun i j => sigma2 * Identity i j) ->
  weighted_sqnorm R v == squaredNorm v / sigma2.
Proof.
  intros Hs HR. apply isotropic_norm; assumption.
Qed.

Lemma euclidean_decreasing sigma2 :
  0 < sigma2 ->
  mat_eq 3 3 R (fun i j => sigma2 * Identity i j) ->
  ~ vec_eq 3 delta_p (Vector3d 0 0 0) ->
  squaredNorm residual' < squaredNorm residual.
Proof.
  intros Hs HR Hnz. pose proof (weighted_decreasing Hnz) as Hlt.
  rewrite !(isotropic_weighted_sqnorm sigma2 _ Hs HR) in Hlt.
  unfold Qdiv in Hlt.
  apply Qmult_lt_r in Hlt; [exact Hlt|]. apply Qinv_lt_0_compat, Hs.
Qed.

End ResidualAcrossUpdate.

Lemma unit_covariance_symmetric : symmetric3 (Map_Matrix3d unit_covariance).
Proof. intros i j Hi Hj. index_cases i; index_cases j; reflexivity. Qed.

Lemma unit_covariance_pos_def : pos_def3 (Map_Matrix3d unit_covariance).
Proof.
  intros v Hnz. unfold quad_form, dot, mulv, Map_Matrix3d. cbn.
  destruct (Qlt_le_dec 0 (v 0%nat * v 0%nat + v 1%nat * v 1%nat + v 2%nat * v 2%nat))
    as [Hpos|Hle]; [lra|].
  exfalso. apply Hnz. intros i Hi. index_cases i; cbn; nra.
Qed.

Lemma identity_block_pos_semidef : pos_semidef3 (block 0 0 Identity).
Proof. intros v. unfold quad_form, dot, mulv, block, Identity. cbn. nra. Qed.


(** The state the specification's filter leaves, without the messages the
    node publishes on the way. *)
Lemma spec_update_residual (Exp : Vector -> Matrix) (C : Collaborators) (now : Q)
    (gps : GpsData) (n : FusionNode) :
  let Cs := spec_filter Exp C in
  let H := jacobian_of (r_GI (state_ptr_ (kf_ptr_ n))) (I_p_Gps_ n) in
  let K := fst (update_K_spec (kf_ptr_ n) H (gps_cov gps)) in
  let delta_x := mulv 3 K (residual_of Cs n gps) in
  let n' := gps_update Cs now gps n in
  p_GI (state_ptr_ (kf_ptr_ n')) = vadd (p_GI (state_ptr_ (kf_ptr_ n))) (segment 0 delta_x) /\
  residual_of Cs n' gps =
    vsub (lla2enu C (init_lla_ n) (lla gps))
      (vadd (vadd (p_GI (state_ptr_ (kf_ptr_ n))) (segment 0 delta_x))
         (mulv 3 (mmul 3 (r_GI (state_ptr_ (kf_ptr_ n))) (Exp (segment 6 delta_x)))
            (I_p_Gps_ n))).
Proof. cbn. split; reflexivity. Qed.


Lemma anisotropic_covariance_pos_def : pos_def3 (Map_Matrix3d anisotropic_covariance).
Proof.
  intros v Hnz. unfold quad_form, dot, mulv, Map_Matrix3d. cbn.
  destruct (Qlt_le_dec 0 (v 0%nat * v 0%nat + 100 * (v 1%nat * v 1%nat) + v 2%nat * v 2%nat))
    as [Hpos|Hle]; [lra|].
  exfalso. apply Hnz. intros i Hi. index_cases i; cbn; nra.
Qed.

Lemma correlated_cov_pos_semidef : pos_semidef3 (block 0 0 correlated_cov).
Proof.
  intros v. unfold quad_form, dot, mulv, block, correlated_cov, Identity. cbn.
  set (a := v 0%nat). set (b := v 1%nat). set (c := v 2%nat).
  assert (Hab : 0 <= (a + b) * (a + b)).
  { generalize (a + b). intros x. nra. }
  assert (Ha : 0 <= a * a) by nra.
  assert (Hb : 0 <= b * b) by nra.
  assert (Hc : 0 <= c * c) by nra.
  assert (E : 0 + a * (0 + 100 * a + 99 * b + 0 * c) + b * (0 + 99 * a + 100 * b + 0 * c) +
              c * (0 + 0 * a + 0 * b + 1 * c)
              == 99 * ((a + b) * (a + b)) + a * a + b * b + c * c) by ring.
  rewrite E. lra.
Qed.


(* ================================================================= *)
(** ** Further properties of the callback *)

(** X1: the callback has undefined behaviour ([back()] on an empty buffer)
    exactly when a quality-2 fix reaches an uninitialized filter whose
    buffer is empty while the minimum buffer size is 0; with a positive
    minimum size every call is defined. *)
Theorem X1_undefined_behaviour_iff (C : Collaborators) (now : Q)
    (gps_msg : NavSatFix) (n : FusionNode) :
  (gps_callback C now gps_msg n = None <->
   status gps_msg = 2%Z /\ initialized_ (kf_ptr_ n) = false /\
   kImuBufSize C = 0%nat /\ imu_buf_ (kf_ptr_ n) = []) /\
  (kImuBufSize C <> 0%nat -> exists n', gps_callback C now gps_msg n = Some n').
Proof.
  assert (Hiff : gps_callback C now gps_msg n = None <->
                 status gps_msg = 2%Z /\ initialized_ (kf_ptr_ n) = false /\
                 kImuBufSize C = 0%nat /\ imu_buf_ (kf_ptr_ n) = []).
  { split.
    - intros Hnone.
      destruct (Z.eq_dec (status gps_msg) 2) as [Hs|Hs];
        [|rewrite (rejected_status C now gps_msg n Hs) in Hnone; discriminate].
      destruct (initialized_ (kf_ptr_ n)) eqn:Hi;
        [rewrite (accepted_initialized C now gps_msg n Hs Hi) in Hnone; discriminate|].
      rewrite (accepted_uninitialized C now gps_msg n Hs Hi) in Hnone. cbv zeta in Hnone.
      destruct (List.length (imu_buf_ (kf_ptr_ n)) <? kImuBufSize C)%nat eqn:Hlen;
        [discriminate|].
      apply Nat.ltb_ge in Hlen.
      destruct (back (imu_buf_ (kf_ptr_ n))) as [last_imu|] eqn:Hback.
      + destruct (negb _); [discriminate|].
        destruct (init_rot_from_imudata C _) as [ok kf3].
        destruct (negb ok); discriminate.
      + apply back_none in Hback. rewrite Hback in Hlen. cbn in Hlen.
        repeat split; auto. lia.
    - intros (Hs & Hi & Hk & Hbuf).
      rewrite (accepted_uninitialized C now gps_msg n Hs Hi). cbv zeta.
      rewrite Hbuf, Hk. reflexivity. }
  split; [exact Hiff|].
  intros Hk. destruct (gps_callback C now gps_msg n) as [n'|] eqn:Hcb.
  - exists n'. reflexivity.
  - exfalso. destruct (proj1 Hiff eq_refl) as (_ & _ & Hk0 & _). contradiction.
Qed.

Lemma X1_undefined_behaviour_iff_witness :
  exists n',
    gps_callback (test_collaborators level_ok) 0 (fix_msg 2 10 1 2 3 unit_covariance)
      (FusionNode_ctor (mkKF false [] None (state_at_origin Identity)) (Vector3d 0 0 0))
    = Some n'.
Proof.
  apply (X1_undefined_behaviour_iff (test_collaborators level_ok) 0
           (fix_msg 2 10 1 2 3 unit_covariance)
           (FusionNode_ctor (mkKF false [] None (state_at_origin Identity))
              (Vector3d 0 0 0))).
  cbn. discriminate.
Defined.

(** X4: a callback only appends to the outputs.  The raw fix (timestamp,
    latitude, longitude, altitude) is written to the GPS log, and one
    odometry message, one path message, one pose of the path and one state
    row are added, exactly when the fix has quality 2 and the filter is
    initialized when the call starts; otherwise no output changes.  A fix
    that initializes the filter is neither logged nor published. *)
Theorem X4_outputs_iff_update (C : Collaborators) (now : Q) (gps_msg : NavSatFix)
    (n n' : FusionNode) :
  gps_callback C now gps_msg n = Some n' ->
  if used_for_update gps_msg n
  then
    file_gps_ n' =
      file_gps_ n ++
        [mkGpsRow (stamp gps_msg)
           (latitude gps_msg, longitude gps_msg, altitude gps_msg)] /\
    exists odom_msg path row,
      odom_pub_ n' = odom_pub_ n ++ [odom_msg] /\
      path_pub_ n' = path_pub_ n ++ [path] /\
      file_state_ n' = file_state_ n ++ [row] /\
      poses (nav_path_ n') = poses (nav_path_ n) ++ [pose_stamped_of odom_msg]
  else
    file_gps_ n' = file_gps_ n /\
    odom_pub_ n' = odom_pub_ n /\
    path_pub_ n' = path_pub_ n /\
    file_state_ n' = file_state_ n /\
    nav_path_ n' = nav_path_ n.
Proof.
  intros Hcb. unfold used_for_update.
  destruct (gps_callback_cases C now gps_msg n n' Hcb)
    as [(Hs & ->)|[(Hs & Hi & ->)|[(Hs & Hi & _ & ->)|[(l & Hs & Hi & _ & _ & _ & ->)
       |(l & ok & kf3 & Hs & Hi & _ & _ & _ & _ & ->)]]]].
  - replace (status gps_msg =? 2)%Z with false by (symmetry; apply Z.eqb_neq, Hs).
    cbn. repeat split.
  - rewrite Hs, Hi. cbn [Z.eqb Pos.eqb andb].
    destruct (gps_update_outputs C now (gps_data_of gps_msg) n)
      as (Ho & Hp & Hpp & Hfs & Hfg & _ & _).
    split; [exact Hfg|].
    eexists. eexists. eexists.
    split; [exact Ho|]. split; [exact Hpp|]. split; [exact Hfs|].
    rewrite Hp. reflexivity.
  - rewrite Hs, Hi. cbn. repeat split.
  - rewrite Hs, Hi. cbn. repeat split.
  - rewrite Hs, Hi. destruct ok; cbn; repeat split.
Qed.

Lemma X4_outputs_iff_update_witness :
  exists n',
    gps_callback (test_collaborators level_ok) 0 (fix_msg 2 10 1 2 3 unit_covariance)
      node_waiting = Some n' /\
    initialized_ (kf_ptr_ n') = true /\
    file_gps_ n' = [] /\ odom_pub_ n' = [].
Proof.
  exists (print SystemInitialized
            (set_init_lla (Vector3d 1 2 3)
               (set_kf_ptr
                  (snd (level_ok
                          (set_state_ptr (set_timestamp 10 (state_at_origin Identity))
                             (set_last_imu_ptr (imu_at 10) kf_waiting))))
                  node_waiting))).
  assert (Hcb : gps_callback (test_collaborators level_ok) 0
                  (fix_msg 2 10 1 2 3 unit_covariance) node_waiting =
                Some (print SystemInitialized
                        (set_init_lla (Vector3d 1 2 3)
                           (set_kf_ptr
                              (snd (level_ok
                                      (set_state_ptr
                                         (set_timestamp 10 (state_at_origin Identity))
                                         (set_last_imu_ptr (imu_at 10) kf_waiting))))
                              node_waiting)))) by reflexivity.
  split; [exact Hcb|]. split; [reflexivity|].
  pose proof (X4_outputs_iff_update _ _ _ _ _ Hcb) as H.
  cbn [used_for_update] in H. unfold used_for_update in H. cbn in H.
  destruct H as (Hg & Ho & _). split; assumption.
Defined.

(* ================================================================= *)
(** ** Invariants of the outputs *)

Lemma outputs_consistent_same (n n' : FusionNode) :
  nav_path_ n' = nav_path_ n -> odom_pub_ n' = odom_pub_ n ->
  path_pub_ n' = path_pub_ n -> file_state_ n' = file_state_ n ->
  file_gps_ n' = file_gps_ n ->
  outputs_consistent n -> outputs_consistent n'.
Proof.
  unfold outputs_consistent. intros -> -> -> -> ->. auto.
Qed.

Lemma outputs_consistent_update (C : Collaborators) (now : Q) (gps : GpsData)
    (n : FusionNode) :
  outputs_consistent n -> outputs_consistent (gps_update C now gps n).
Proof.
  intros (Hposes & Hpath & Hstate & Hgps & Hprefix).
  destruct (gps_update_outputs C now gps n) as (Ho & Hp & Hpp & Hfs & Hfg & _ & _).
  unfold outputs_consistent.
  rewrite Hpp, Hfs, Hfg, Ho, Hp. cbn [poses].
  rewrite !length_app, map_app, Hposes, Hpath, Hstate, Hgps. cbn [List.length map].
  split; [reflexivity|]. split; [reflexivity|]. split; [reflexivity|].
  split; [reflexivity|].
  intros k path Hk.
  assert (Hlen : List.length (poses (nav_path_ n)) = List.length (path_pub_ n)).
  { rewrite Hposes, length_map. symmetry. exact Hpath. }
  rewrite <- Hposes.
  destruct (Nat.lt_ge_cases k (List.length (path_pub_ n))) as [Hlt|Hge].
  - rewrite nth_error_app1 in Hk by exact Hlt.
    rewrite (Hprefix k path Hk).
    rewrite firstn_app.
    replace (S k - List.length (poses (nav_path_ n)))%nat with 0%nat by lia.
    cbn [firstn]. rewrite app_nil_r. reflexivity.
  - rewrite nth_error_app2 in Hk by exact Hge.
    destruct (k - List.length (path_pub_ n))%nat as [|d] eqn:Hd.
    + cbn in Hk. injection Hk as <-. cbn [poses]. rewrite ?Hposes.
      rewrite firstn_all2; [reflexivity|].
      rewrite length_app, length_map. cbn. lia.
    + cbn in Hk. destruct d; discriminate.
Qed.

Lemma outputs_consistent_step (C : Collaborators) (now : Q) (gps_msg : NavSatFix)
    (n n' : FusionNode) :
  gps_callback C now gps_msg n = Some n' ->
  outputs_consistent n -> outputs_consistent n'.
Proof.
  intros Hcb Hn.
  destruct (gps_callback_cases C now gps_msg n n' Hcb)
    as [(_ & ->)|[(_ & _ & ->)|[(_ & _ & _ & ->)|[(l & _ & _ & _ & _ & _ & ->)
       |(l & ok & kf3 & _ & _ & _ & _ & _ & _ & ->)]]]].
  - apply (outputs_consistent_same n); auto.
  - apply outputs_consistent_update, Hn.
  - apply (outputs_consistent_same n); auto.
  - apply (outputs_consistent_same n); auto.
  - destruct ok; apply (outputs_consistent_same n); auto.
Qed.

Lemma reachable_outputs_consistent (C : Collaborators) (kf0 : KF) (lla0 : Vector)
    (n : FusionNode) :
  reachable C kf0 lla0 n -> outputs_consistent n.
Proof.
  induction 1 as [|n now gps_msg n' _ IH Hstep|n kf' _ IH].
  - unfold outputs_consistent. cbn. repeat split; auto.
    intros [|k] path Hk; discriminate.
  - apply (outputs_consistent_step C now gps_msg n n' Hstep IH).
  - apply (outputs_consistent_same n); auto.
Qed.

(** X2: in every state the node can reach, the odometry topic, the path
    topic, the state log, the GPS log and the path itself have the same
    number of entries: each measurement update adds one to all five and
    nothing else adds to any. *)
Theorem X2_outputs_in_lockstep (C : Collaborators) (kf0 : KF) (lla0 : Vector)
    (n : FusionNode) :
  reachable C kf0 lla0 n ->
  List.length (path_pub_ n) = List.length (odom_pub_ n) /\
  List.length (file_state_ n) = List.length (odom_pub_ n) /\
  List.length (file_gps_ n) = List.length (odom_pub_ n) /\
  List.length (poses (nav_path_ n)) = List.length (odom_pub_ n).
Proof.
  intros Hr.
  destruct (reachable_outputs_consistent C kf0 lla0 n Hr) as (Hposes & Hp & Hs & Hg & _).
  repeat split; auto. rewrite Hposes. apply length_map.
Qed.

Lemma reachable_after_update :
  reachable (test_collaborators level_ok) (kf_running Identity) (Vector3d 0 0 0)
    (gps_update (test_collaborators level_ok) 0
       (gps_data_of (fix_msg 2 10 1 2 3 unit_covariance)) (node_running Identity)).
Proof.
  eapply reach_gps with (now := 0) (gps_msg := fix_msg 2 10 1 2 3 unit_covariance).
  - apply reach_ctor.
  - reflexivity.
Qed.

Lemma X2_outputs_in_lockstep_witness :
  let n := gps_update (test_collaborators level_ok) 0
             (gps_data_of (fix_msg 2 10 1 2 3 unit_covariance)) (node_running Identity) in
  List.length (file_gps_ n) = List.length (odom_pub_ n) /\
  List.length (poses (nav_path_ n)) = List.length (odom_pub_ n).
Proof.
  cbv zeta.
  destruct (X2_outputs_in_lockstep _ _ _ _ reachable_after_update) as (_ & _ & Hg & Hp).
  split; assumption.
Defined.

(** X3: in every state the node can reach, the path is the ordered sequence
    of the poses of all odometry messages published so far, each with the
    header of its message, and the k-th path message published holds the
    first k+1 of them: the path is cumulative and never rewritten. *)
Theorem X3_path_is_cumulative (C : Collaborators) (kf0 : KF) (lla0 : Vector)
    (n : FusionNode) :
  reachable C kf0 lla0 n ->
  poses (nav_path_ n) = map pose_stamped_of (odom_pub_ n) /\
  forall k path,
    nth_error (path_pub_ n) k = Some path ->
    poses path = map pose_stamped_of (firstn (S k) (odom_pub_ n)).
Proof.
  intros Hr.
  destruct (reachable_outputs_consistent C kf0 lla0 n Hr) as (Hposes & _ & _ & _ & Hprefix).
  split; [exact Hposes|].
  intros k path Hk. rewrite (Hprefix k path Hk), Hposes. apply firstn_map.
Qed.

Lemma X3_path_is_cumulative_witness :
  let n := gps_update (test_collaborators level_ok) 0
             (gps_data_of (fix_msg 2 10 1 2 3 unit_covariance)) (node_running Identity) in
  poses (nav_path_ n) = map pose_stamped_of (odom_pub_ n).
Proof.
  cbv zeta.
  apply (X3_path_is_cumulative _ _ _ _ reachable_after_update).
Defined.

(** X5: a callback changes the anchor only when it reports "System
    initialized", and then the anchor is the latitude, longitude and
    altitude of the fix, which has quality 2 and met an uninitialized
    filter; in every other call the anchor is the one before the call and
    no initialization is reported. *)
Theorem X5_anchor_set_only_by_initialization (C : Collaborators) (now : Q)
    (gps_msg : NavSatFix) (n n' : FusionNode) :
  gps_callback C now gps_msg n = Some n' ->
  (console n' = console n ++ [SystemInitialized] /\
   init_lla_ n' = Vector3d (latitude gps_msg) (longitude gps_msg) (altitude gps_msg) /\
   status gps_msg = 2%Z /\ initialized_ (kf_ptr_ n) = false) \/
  (console n' <> console n ++ [SystemInitialized] /\ init_lla_ n' = init_lla_ n).
Proof.
  intros Hcb.
  destruct (gps_callback_cases C now gps_msg n n' Hcb)
    as [(Hs & ->)|[(Hs & Hi & ->)|[(Hs & Hi & _ & ->)|[(l & Hs & Hi & _ & _ & _ & ->)
       |(l & ok & kf3 & Hs & Hi & _ & _ & _ & _ & ->)]]]].
  - right. cbn. split; [|reflexivity].
    intros H. apply console_last_inj in H. discriminate.
  - right. destruct (gps_update_outputs C now (gps_data_of gps_msg) n)
      as (_ & _ & _ & _ & _ & Ha & Hc).
    rewrite Hc, Ha. split; [apply console_not_extended|reflexivity].
  - right. cbn. split; [|reflexivity].
    intros H. apply console_last_inj in H. discriminate.
  - right. cbn. split; [|reflexivity].
    intros H. apply console_last_inj in H. discriminate.
  - destruct ok.
    + left. cbn. repeat split; auto.
    + right. cbn. split; [apply console_not_extended|reflexivity].
Qed.

Lemma X5_anchor_set_only_by_initialization_witness :
  let n' := gps_update (test_collaborators level_ok) 0
              (gps_data_of (fix_msg 2 10 1 2 3 unit_covariance)) (node_running Identity) in
  init_lla_ n' = init_lla_ (node_running Identity).
Proof.
  cbv zeta.
  destruct (X5_anchor_set_only_by_initialization (test_collaborators level_ok) 0
              (fix_msg 2 10 1 2 3 unit_covariance) (node_running Identity)
              (gps_update (test_collaborators level_ok) 0
                 (gps_data_of (fix_msg 2 10 1 2 3 unit_covariance))
                 (node_running Identity)) eq_refl)
    as [(_ & _ & _ & Hi)|(_ & Ha)].
  - discriminate Hi.
  - exact Ha.
Defined.

(** X6: the two thresholds of the initialization branch are strict.  For a
    quality-2 fix on an uninitialized filter, "Not Enough IMU data" is
    reported exactly when the buffer holds fewer samples than the minimum (a
    buffer of exactly the minimum size passes, an empty buffer included when
    the minimum is positive), and "not synchronized" exactly when the buffer
    is large enough, has a latest sample, and the difference of the two
    timestamps computed in double precision is more than 0.5, which is the
    case exactly when the timestamps are more than 0.5 + 2^-54 s apart (a
    computed difference of exactly 0.5 passes). *)
Theorem X6_thresholds_are_strict (C : Collaborators) (now : Q) (gps_msg : NavSatFix)
    (n n' : FusionNode) :
  status gps_msg = 2%Z ->
  initialized_ (kf_ptr_ n) = false ->
  gps_callback C now gps_msg n = Some n' ->
  (console n' = console n ++ [NotEnoughImuData] <->
   (List.length (imu_buf_ (kf_ptr_ n)) < kImuBufSize C)%nat) /\
  (console n' = console n ++ [NotSynchronized] <->
   exists last_imu,
     back (imu_buf_ (kf_ptr_ n)) = Some last_imu /\
     (kImuBufSize C <= List.length (imu_buf_ (kf_ptr_ n)))%nat /\
     (1 # 2) < Qabs (double_minus (stamp gps_msg) (imu_timestamp last_imu))) /\
  (forall last_imu,
     (1 # 2) < Qabs (double_minus (stamp gps_msg) (imu_timestamp last_imu)) <->
     (1 # 2) + 2 ^ (-54) < Qabs (stamp gps_msg - imu_timestamp last_imu)).
Proof.
  intros Hs Hi Hcb.
  cut ((console n' = console n ++ [NotEnoughImuData] <->
        (List.length (imu_buf_ (kf_ptr_ n)) < kImuBufSize C)%nat) /\
       (console n' = console n ++ [NotSynchronized] <->
        exists last_imu,
          back (imu_buf_ (kf_ptr_ n)) = Some last_imu /\
          (kImuBufSize C <= List.length (imu_buf_ (kf_ptr_ n)))%nat /\
          (1 # 2) < Qabs (double_minus (stamp gps_msg) (imu_timestamp last_imu)))).
  { intros [H1 H2]. split; [exact H1|]. split; [exact H2|].
    intros last_imu. apply (desynchronised_exact gps_msg last_imu). }
  destruct (gps_callback_cases C now gps_msg n n' Hcb)
    as [(Hs' & _)|[(_ & Hi' & _)|[(_ & _ & Hlen & ->)|[(l & _ & _ & Hlen & Hb & Hd & ->)
       |(l & ok & kf3 & _ & _ & Hlen & Hb & Hd & _ & ->)]]]].
  - contradiction.
  - congruence.
  - cbn. split; split; auto.
    + intros H. apply console_last_inj in H. discriminate.
    + intros (last_imu & _ & Hge & _). lia.
  - cbn. split; split.
    + intros H. apply console_last_inj in H. discriminate.
    + intros Hlt. lia.
    + intros _. exists l. auto.
    + reflexivity.
  - assert (Hsync : forall last_imu,
              back (imu_buf_ (kf_ptr_ n)) = Some last_imu ->
              ~ (1 # 2) < Qabs (double_minus (stamp gps_msg) (imu_timestamp last_imu))).
    { intros last_imu Hb' Hd'. assert (last_imu = l) by congruence. subst last_imu.
      exact (Hd Hd'). }
    destruct ok; cbn; split; split.
    + intros H. apply console_last_inj in H. discriminate.
    + intros Hlt. lia.
    + intros H. apply console_last_inj in H. discriminate.
    + intros (last_imu & Hb' & _ & Hd'). exfalso. exact (Hsync last_imu Hb' Hd').
    + intros H. exfalso. exact (console_not_extended _ _ H).
    + intros Hlt. lia.
    + intros H. exfalso. exact (console_not_extended _ _ H).
    + intros (last_imu & Hb' & _ & Hd'). exfalso. exact (Hsync last_imu Hb' Hd').
Qed.

(** At the boundaries: two samples with a minimum of two, and a fix whose
    computed distance to the latest sample is exactly half a second (the
    doubles nearest to 0.501 s and 0.001 s). *)
Lemma X6_thresholds_are_strict_witness :
  let C := test_collaborators level_ok in
  let gps_msg := fix_msg 2 stamp_0_501 1 2 3 unit_covariance in
  let n := FusionNode_ctor kf_waiting_early (Vector3d 0 0 0) in
  exists n',
    gps_callback C 0 gps_msg n = Some n' /\
    console n' <> console n ++ [NotEnoughImuData] /\
    console n' <> console n ++ [NotSynchronized].
Proof.
  cbv zeta.
  destruct (gps_callback (test_collaborators level_ok) 0
              (fix_msg 2 stamp_0_501 1 2 3 unit_covariance)
              (FusionNode_ctor kf_waiting_early (Vector3d 0 0 0))) as [n'|] eqn:Hcb;
    [|vm_compute in Hcb; discriminate Hcb].
  exists n'. split; [reflexivity|].
  destruct (X6_thresholds_are_strict (test_collaborators level_ok) 0
              (fix_msg 2 stamp_0_501 1 2 3 unit_covariance)
              (FusionNode_ctor kf_waiting_early (Vector3d 0 0 0)) n'
              eq_refl eq_refl Hcb) as (Hshort & Hsync & _).
  split.
  - intros H. apply Hshort in H. cbn in H. lia.
  - intros H. apply Hsync in H. destruct H as (last_imu & Hb & _ & Hd).
    injection Hb as <-. vm_compute in Hd. discriminate.
Defined.

(* ================================================================= *)
(** ** Further properties of the published data *)

(** X7: the 6x6 pose covariance is symmetric whenever the error covariance
    is symmetric on the position and orientation rows and columns (0-2 and
    6-8): element (a, b) of the published array equals element (b, a). *)
Theorem X7_pose_covariance_symmetric (P : Matrix) (a b : nat) :
  (forall i j, (i < 6)%nat -> (j < 6)%nat ->
     P (pose_index i) (pose_index j) == P (pose_index j) (pose_index i)) ->
  (a < 6)%nat -> (b < 6)%nat ->
  nth (6 * a + b) (pose_covariance_of P) 0 == nth (6 * b + a) (pose_covariance_of P) 0.
Proof.
  intros Hsym Ha Hb.
  rewrite !pose_covariance_row_major by lia.
  replace ((6 * a + b) / 6)%nat with a by (apply Nat.div_unique with b; lia).
  replace ((6 * a + b) mod 6)%nat with b by (apply Nat.mod_unique with a; lia).
  replace ((6 * b + a) / 6)%nat with b by (apply Nat.div_unique with a; lia).
  replace ((6 * b + a) mod 6)%nat with a by (apply Nat.mod_unique with b; lia).
  apply Hsym; assumption.
Qed.

Lemma X7_pose_covariance_symmetric_witness :
  nth (6 * 1 + 4) (pose_covariance_of correlated_cov) 0 ==
  nth (6 * 4 + 1) (pose_covariance_of correlated_cov) 0.
Proof.
  apply (X7_pose_covariance_symmetric correlated_cov 1 4); [|lia|lia].
  intros i j Hi Hj. index_cases i; index_cases j; reflexivity.
Defined.

(** X9: in every state the node can reach, the Jacobian of the update
    selects the position part of the error state: for any 15x15 matrix [A],
    [H * A] is the first three rows of [A], [A * H^T] its first three
    columns and [H * A * H^T] its position block. *)
Theorem X9_jacobian_selects_position (C : Collaborators) (kf0 : KF) (lla0 : Vector)
    (n : FusionNode) (A : Matrix) :
  reachable C kf0 lla0 n ->
  let H := jacobian_of (r_GI (state_ptr_ (kf_ptr_ n))) (I_p_Gps_ n) in
  (forall i j, (i < 3)%nat -> mmul kStateDim H A i j == A i j) /\
  (forall i j, (j < 3)%nat -> mmul kStateDim A (transpose H) i j == A i j) /\
  mat_eq 3 3 (mmul kStateDim (mmul kStateDim H A) (transpose H)) (block 0 0 A).
Proof.
  intros Hr H. subst H. pose proof (reachable_lever_arm C kf0 lla0 n Hr) as Hl.
  split; [|split].
  - intros i j Hi. apply (jacobian_rows n Hl A i j Hi).
  - intros i j Hj. apply (jacobian_columns n Hl A i j Hj).
  - intros i j Hi Hj. unfold block. cbn [Nat.add].
    rewrite (jacobian_columns n Hl
               (mmul kStateDim (jacobian_of (r_GI (state_ptr_ (kf_ptr_ n))) (I_p_Gps_ n)) A)
               i j Hj).
    apply (jacobian_rows n Hl A i j Hi).
Qed.

Lemma X9_jacobian_selects_position_witness :
  let n := gps_update (test_collaborators level_ok) 0
             (gps_data_of (fix_msg 2 10 1 2 3 unit_covariance)) (node_running Identity) in
  let H := jacobian_of (r_GI (state_ptr_ (kf_ptr_ n))) (I_p_Gps_ n) in
  mat_eq 3 3 (mmul kStateDim (mmul kStateDim H correlated_cov) (transpose H))
    (block 0 0 correlated_cov).
Proof.
  cbv zeta.
  apply (X9_jacobian_selects_position _ _ _ _ correlated_cov reachable_after_update).
Defined.

(** X10: what an accepted fix on an initialized filter publishes is computed
    from the state the callback leaves, that is after the correction: the
    odometry carries the pose and the velocity of that state under the frame
    "global" and the clock reading, the path gains that pose under the same
    header and is published as it then is, and the state row holds that
    state's timestamp and position and the position converted back from the
    unchanged anchor. *)
Theorem X10_publication_follows_correction (C : Collaborators) (now : Q)
    (gps_msg : NavSatFix) (n : FusionNode) :
  status gps_msg = 2%Z ->
  initialized_ (kf_ptr_ n) = true ->
  exists n',
    gps_callback C now gps_msg n = Some n' /\
    let st' := state_ptr_ (kf_ptr_ n') in
    let header := mkHeader "global" now in
    let pose := poseEigenToMsg C (r_GI st') (p_GI st') in
    init_lla_ n' = init_lla_ n /\
    odom_pub_ n' =
      odom_pub_ n ++ [mkOdometry header pose (pose_covariance_of (cov st')) (v_GI st')] /\
    nav_path_ n' = mkPath header (poses (nav_path_ n) ++ [mkPoseStamped header pose]) /\
    path_pub_ n' = path_pub_ n ++ [nav_path_ n'] /\
    file_state_ n' =
      file_state_ n ++
        [mkStateRow (timestamp st') (triple (p_GI st')) (Quaterniond C (r_GI st'))
           (triple (enu2lla C (init_lla_ n') (p_GI st')))].
Proof.
  intros Hs Hi. exists (gps_update C now (gps_data_of gps_msg) n). split.
  - apply accepted_initialized; assumption.
  - destruct (gps_update_outputs C now (gps_data_of gps_msg) n)
      as (Ho & Hp & Hpp & Hfs & _ & Ha & _).
    cbv zeta. rewrite Ha at 2. auto.
Qed.

Lemma X10_publication_follows_correction_witness :
  exists n',
    gps_callback (test_collaborators level_ok) 0 (fix_msg 2 10 1 2 3 unit_covariance)
      (node_running Identity) = Some n' /\
    path_pub_ n' = [nav_path_ n'].
Proof.
  destruct (X10_publication_follows_correction (test_collaborators level_ok) 0
              (fix_msg 2 10 1 2 3 unit_covariance) (node_running Identity)
              eq_refl eq_refl) as (n' & Hcb & _ & _ & _ & Hpp & _).
  exists n'. split; [exact Hcb|exact Hpp].
Defined.

(* ================================================================= *)
(** ** Runs of the subscription loop *)

(** X11: a run of fixes none of which has quality 2 is always defined and
    leaves the filter, the anchor, the path and every publisher and log file
    as they were; it prints one "Bad GPS Message" line per fix. *)
Theorem X11_rejected_run (C : Collaborators) (msgs : list (Q * NavSatFix))
    (n : FusionNode) :
  Forall (fun m => status (snd m) <> 2%Z) msgs ->
  exists n',
    gps_callbacks C msgs n = Some n' /\
    console n' = console n ++ repeat BadGpsMessage (List.length msgs) /\
    kf_ptr_ n' = kf_ptr_ n /\
    init_lla_ n' = init_lla_ n /\
    I_p_Gps_ n' = I_p_Gps_ n /\
    nav_path_ n' = nav_path_ n /\
    odom_pub_ n' = odom_pub_ n /\
    path_pub_ n' = path_pub_ n /\
    file_gps_ n' = file_gps_ n /\
    file_state_ n' = file_state_ n.
Proof.
  intros Hall. revert n.
  induction Hall as [|[now gps_msg] rest Hs _ IH]; intros n.
  - exists n. cbn. rewrite app_nil_r. repeat split.
  - cbn [gps_callbacks]. cbn [snd] in Hs.
    rewrite (rejected_status C now gps_msg n Hs).
    destruct (IH (print BadGpsMessage n))
      as (n' & Hrun & Hc & Hkf & Ha & Hl & Hp & Ho & Hpp & Hg & Hfs).
    exists n'. split; [exact Hrun|].
    rewrite Hc, Hkf, Ha, Hl, Hp, Ho, Hpp, Hg, Hfs. cbn.
    rewrite <- app_assoc. repeat split.
Qed.

Lemma X11_rejected_run_witness :
  exists n',
    gps_callbacks (test_collaborators level_ok)
      [(0, fix_msg 0 10 1 2 3 unit_covariance); (1, fix_msg 1 11 1 2 3 unit_covariance)]
      (node_running Identity) = Some n' /\
    console n' = [BadGpsMessage; BadGpsMessage] /\
    kf_ptr_ n' = kf_running Identity.
Proof.
  destruct (X11_rejected_run (test_collaborators level_ok)
              [(0, fix_msg 0 10 1 2 3 unit_covariance);
               (1, fix_msg 1 11 1 2 3 unit_covariance)]
              (node_running Identity))
    as (n' & Hrun & Hc & Hkf & _).
  - repeat constructor; cbn; discriminate.
  - exists n'. split; [exact Hrun|]. split; [exact Hc|exact Hkf].
Defined.
